(** * The renter's memory manager (package renter)

    A shallow embedding of [memoryManager]: its constructor
    [newMemoryManager], the admission predicate [try], the part of [Request]
    that runs under the mutex, and [Return] with its two release loops.

    Go's [uint64] is modelled as [Z] reduced modulo [2^64] after every
    addition and subtraction.  The mutex serialises all accesses, so one call
    is one atomic step on the record; what a call does to the outside world
    (closing a waiter's channel, running the garbage collector, reporting a
    critical error) is returned as a list of events, in program order. *)

From Stdlib Require Import String.
From Stdlib Require Import ZArith List Bool Lia Permutation.
Import ListNotations.
Local Open Scope Z_scope.

(** ** 64-bit unsigned arithmetic *)

Module U64.

Definition modulus : Z := 2 ^ 64.
Definition max : Z := modulus - 1.

Definition wrap (z : Z) : Z := z mod modulus.
Definition add (a b : Z) : Z := wrap (a + b).
Definition sub (a b : Z) : Z := wrap (a - b).

(** The values a [uint64] variable can hold. *)
Definition ok (z : Z) : Prop := 0 <= z < modulus.

End U64.

Arguments U64.modulus : simpl never.
Arguments U64.wrap : simpl never.
Arguments U64.add : simpl never.
Arguments U64.sub : simpl never.

(** ** Data *)

(** A Go channel, named by its identity. *)
Definition chan := nat.

(** [memoryRequest]: a single thread that is blocked while waiting for
    memory. *)
Record memoryRequest : Type := mkRequest {
  amount : Z;
  done : chan
}.

(** [memoryManager], without the mutex [mu] and the test-only [blocking]
    channel, which hold no accounting state. *)
Record memoryManager : Type := mkManager {
  available : Z;        (* Total memory remaining. *)
  base : Z;             (* Initial memory. *)
  memSinceGC : Z;       (* Counts allocations to trigger a manual GC. *)
  priorityReserve : Z;  (* Memory set aside for priority requests. *)
  underflow : Z;        (* Large requests cause underflow. *)
  fifo : list memoryRequest;
  priorityFifo : list memoryRequest;
  stop : chan
}.

Definition set_available (v : Z) (mm : memoryManager) : memoryManager :=
  mkManager v (base mm) (memSinceGC mm) (priorityReserve mm) (underflow mm)
            (fifo mm) (priorityFifo mm) (stop mm).

Definition set_memSinceGC (v : Z) (mm : memoryManager) : memoryManager :=
  mkManager (available mm) (base mm) v (priorityReserve mm) (underflow mm)
            (fifo mm) (priorityFifo mm) (stop mm).

Definition set_underflow (v : Z) (mm : memoryManager) : memoryManager :=
  mkManager (available mm) (base mm) (memSinceGC mm) (priorityReserve mm) v
            (fifo mm) (priorityFifo mm) (stop mm).

Definition set_fifo (q : list memoryRequest) (mm : memoryManager) : memoryManager :=
  mkManager (available mm) (base mm) (memSinceGC mm) (priorityReserve mm)
            (underflow mm) q (priorityFifo mm) (stop mm).

Definition set_priorityFifo (q : list memoryRequest) (mm : memoryManager) : memoryManager :=
  mkManager (available mm) (base mm) (memSinceGC mm) (priorityReserve mm)
            (underflow mm) (fifo mm) q (stop mm).

(** Modelled from the spec: the constants [memoryPriorityLow] and
    [memoryPriorityHigh] are declared in another file of the package; the spec
    drains the priority queue with [priority = true] and the normal queue
    with [priority = false]. *)
Definition memoryPriorityLow : bool := false.
Definition memoryPriorityHigh : bool := true.

(** What a call does outside the record. *)
Inductive event : Type :=
| EvGC                       (* runtime.GC() *)
| EvFreeOSMemory             (* debug.FreeOSMemory() *)
| EvCritical (msg : string)  (* build.Critical(msg) *)
| EvClose (c : chan).        (* close(c) *)

Definition isCollect (e : event) : bool :=
  match e with EvGC | EvFreeOSMemory => true | _ => false end.

(** ** newMemoryManager *)

Definition newMemoryManager (baseMemory priorityMemory : Z) (stopChan : chan)
  : memoryManager :=
  {| available := baseMemory;
     base := baseMemory;
     memSinceGC := 0;
     priorityReserve := priorityMemory;
     underflow := 0;
     fifo := [];
     priorityFifo := [];
     stop := stopChan |}.

(** ** try *)

(** The guard of the first branch of [try] (line 69). *)
Definition enoughMemory (mm : memoryManager) (amt : Z) (priority : bool) : bool :=
  (U64.add amt (priorityReserve mm) <=? available mm)
  || (priority && (amt <=? available mm)).

(** The guard of the second branch of [try] (line 73). *)
Definition noneInUse (mm : memoryManager) (amt : Z) : bool :=
  (available mm =? base mm) && (available mm <=? amt).

Definition try (mm : memoryManager) (amt : Z) (priority : bool)
  : bool * memoryManager :=
  if enoughMemory mm amt priority then
    (* There is enough memory, decrement the memory and return. *)
    (true, set_available (U64.sub (available mm) amt) mm)
  else if noneInUse mm amt then
    (* No memory is currently in use: all of it goes to this request. *)
    (true, set_underflow (U64.sub amt (base mm)) (set_available 0 mm))
  else
    (false, mm).

(** ** Request, up to the point where the caller blocks *)

Inductive admission : Type :=
| Granted                      (* [return true] at line 97 *)
| Blocked (w : memoryRequest). (* joined a fifo; now waits on [w.done] and [stop] *)

Definition shouldTry (mm : memoryManager) (priority : bool) : bool :=
  (Nat.eqb (length (priorityFifo mm)) 0)
  && (Bool.eqb priority memoryPriorityHigh || Nat.eqb (length (fifo mm)) 0).

(** [newDone] is the channel that [make(chan struct{})] returns for this
    call. *)
Definition Request (mm : memoryManager) (amt : Z) (priority : bool) (newDone : chan)
  : admission * memoryManager :=
  let attempt := if shouldTry mm priority then try mm amt priority else (false, mm) in
  if fst attempt then (Granted, snd attempt)
  else
    let mm := snd attempt in
    let myRequest := {| amount := amt; done := newDone |} in
    if priority
    then (Blocked myRequest, set_priorityFifo (priorityFifo mm ++ [myRequest]) mm)
    else (Blocked myRequest, set_fifo (fifo mm ++ [myRequest]) mm).

(** The two signals a blocked caller selects on, and what [Request] returns
    for each. *)
Inductive wakeup : Type := DoneClosed | StopClosed.

Definition blockedResult (w : wakeup) : bool :=
  match w with DoneClosed => true | StopClosed => false end.

(** ** Return *)

(** Modelled from the spec: [build.Critical] belongs to package build,
    whose source is not at hand; the spec's assertion reporter is called on
    an accounting violation and must not terminate the process, so a call
    records the report and returns to its caller. *)
Definition Critical (msg : string) : list event := [EvCritical msg].

Definition tooMuchReturned : string :=
  "renter memory manager being used incorrectly, too much memory returned"%string.

(** How control leaves a block of [Return]: it falls through to the next
    statement, or the function returns. *)
Inductive flow : Type := FallThrough | ReturnNow.

(** What the underflow block (lines 149-157) leaves: the function has
    returned, or it goes on with what is left of [amount]. *)
Inductive paydown : Type :=
| Paid (mm : memoryManager)
| Left (mm : memoryManager) (amt : Z).

(** Lines 149-157: clear out the underflow if needed. *)
Definition clearUnderflow (mm : memoryManager) (amt : Z) : paydown :=
  if (0 <? underflow mm) && (amt <=? underflow mm) then
    (* Not even enough memory has been returned to clear the underflow. *)
    Paid (set_underflow (U64.sub (underflow mm) amt) mm)
  else if (0 <? underflow mm) && (underflow mm <? amt) then
    Left (set_underflow 0 mm) (U64.sub amt (underflow mm))
  else
    Left mm amt.

(** Lines 158-165: add the memory to the pool, with the sanity check. *)
Definition addAvailable (mm : memoryManager) (amt : Z) : memoryManager * list event :=
  let mm := set_available (U64.add (available mm) amt) mm in
  if base mm <? available mm
  then (set_available (base mm) mm, Critical tooMuchReturned)
  else (mm, []).

(** Lines 168-178.  [q] is [mm.priorityFifo]; each iteration that grants
    the head closes its channel and stores the tail back into the record,
    so the loop is a recursion on the queue. *)
Fixpoint releasePriority (q : list memoryRequest) (mm : memoryManager)
  : flow * memoryManager * list event :=
  match q with
  | [] => (FallThrough, mm, [])
  | r :: q' =>
    let (granted, mm) := try mm (amount r) memoryPriorityHigh in
    if negb granted then (ReturnNow, mm, [])
    else
      let '(fl, mm, evs) := releasePriority q' (set_priorityFifo q' mm) in
      (fl, mm, EvClose (done r) :: evs)
  end.

(** Lines 181-191, the same loop on [mm.fifo] at low priority. *)
Fixpoint releaseNormal (q : list memoryRequest) (mm : memoryManager)
  : flow * memoryManager * list event :=
  match q with
  | [] => (FallThrough, mm, [])
  | r :: q' =>
    let (granted, mm) := try mm (amount r) memoryPriorityLow in
    if negb granted then (ReturnNow, mm, [])
    else
      let '(fl, mm, evs) := releaseNormal q' (set_fifo q' mm) in
      (fl, mm, EvClose (done r) :: evs)
  end.

(** Lines 167-191: the two loops in sequence. *)
Definition release (mm : memoryManager) : memoryManager * list event :=
  let '(fl, mm, evsP) := releasePriority (priorityFifo mm) mm in
  match fl with
  | ReturnNow => (mm, evsP)
  | FallThrough =>
    let '(_, mm, evsN) := releaseNormal (fifo mm) mm in
    (mm, evsP ++ evsN)
  end.

(** The channels closed by a list of events, in order. *)
Definition closed (evs : list event) : list chan :=
  flat_map (fun e => match e with EvClose c => [c] | _ => [] end) evs.

(** One call on the manager, as seen under its mutex. *)
Inductive call : Type :=
| CallRequest (amt : Z) (priority : bool) (newDone : chan)
| CallReturn (amt : Z).

Section Threshold.

(** [defaultMemory] is a constant of package renter declared in another
    file. *)
Variable defaultMemory : Z.

(** Lines 140-145: count the returned memory and collect if enough has
    been returned. *)
Definition countReturned (mm : memoryManager) (amt : Z) : memoryManager * list event :=
  let mm := set_memSinceGC (U64.add (memSinceGC mm) amt) mm in
  if defaultMemory <? memSinceGC mm
  then (set_memSinceGC 0 mm, [EvGC; EvFreeOSMemory])
  else (mm, []).

Definition Return (mm : memoryManager) (amt : Z) : memoryManager * list event :=
  let (mm, evsGC) := countReturned mm amt in
  match clearUnderflow mm amt with
  | Paid mm => (mm, evsGC)
  | Left mm amt =>
    let (mm, evsAdd) := addAvailable mm amt in
    let (mm, evsRel) := release mm in
    (mm, evsGC ++ evsAdd ++ evsRel)
  end.

Definition step (mm : memoryManager) (c : call) : memoryManager :=
  match c with
  | CallRequest amt priority newDone => snd (Request mm amt priority newDone)
  | CallReturn amt => fst (Return mm amt)
  end.

(** The manager after a sequence of calls. *)
Definition run (cs : list call) (mm : memoryManager) : memoryManager :=
  fold_left step cs mm.

End Threshold.

(** A request whose [amount + priorityReserve] does not wrap. *)
Definition fits (reserve amt : Z) : Prop := 0 <= amt /\ amt + reserve < U64.modulus.

Definition callFits (reserve : Z) (c : call) : Prop :=
  match c with
  | CallRequest amt _ _ => fits reserve amt
  | CallReturn amt => U64.ok amt
  end.

(** The accounting invariant of the data model. *)
Record accounted (mm : memoryManager) : Prop := {
  acc_available : 0 <= available mm <= base mm;
  acc_base : base mm < U64.modulus;
  acc_underflow : U64.ok (underflow mm);
  acc_debt : 0 < underflow mm -> available mm = 0;
  acc_reserve : 0 <= priorityReserve mm;
  acc_fifo : Forall (fun w => fits (priorityReserve mm) (amount w)) (fifo mm);
  acc_priorityFifo : Forall (fun w => fits (priorityReserve mm) (amount w)) (priorityFifo mm)
}.

(** Two managers that differ at most in [memSinceGC]. *)
Definition sameButGC (a b : memoryManager) : Prop :=
  set_memSinceGC 0 a = set_memSinceGC 0 b.

(** The event of releasing a waiter. *)
Definition closeOf (r : memoryRequest) : event := EvClose (done r).

(** What a release loop leaves behind: [n] waiters were released, the head
    of what remains was refused unless nothing remains. *)
Record released (q : list memoryRequest) (priority : bool)
       (out : flow * memoryManager * list event) (n : nat) : Prop := {
  rel_events : snd out = map closeOf (firstn n q);
  rel_flow :
    match fst (fst out) with
    | FallThrough => skipn n q = []
    | ReturnNow =>
      exists w rest, skipn n q = w :: rest /\
                     fst (try (snd (fst out)) (amount w) priority) = false
    end
}.

(** The head of the normal fifo, if any, is one that [try] refuses. *)
Definition normalHeadWaits (mm : memoryManager) : Prop :=
  match fifo mm with
  | [] => True
  | w :: _ => fst (try mm (amount w) memoryPriorityLow) = false
  end.

(** The state in which the release loops stop: with the priority fifo
    empty, the head of the normal fifo is one that [try] refuses. *)
Definition settled (mm : memoryManager) : Prop :=
  priorityFifo mm = [] -> normalHeadWaits mm.

(** ** Bookkeeping quantities *)

(** The bytes asked for by the waiters of a fifo. *)
Definition sumAmounts (q : list memoryRequest) : Z :=
  fold_right Z.add 0 (map amount q).

(** The bytes asked for by all waiters. *)
Definition demand (mm : memoryManager) : Z :=
  sumAmounts (priorityFifo mm) + sumAmounts (fifo mm).

(** The bytes nobody holds: negative while a borrow is outstanding. *)
Definition uncommitted (mm : memoryManager) : Z := available mm - underflow mm.

(** The bytes asked for, and handed back, by a sequence of calls. *)
Definition requested (cs : list call) : Z :=
  fold_right (fun c acc => match c with CallRequest a _ _ => a + acc | _ => acc end) 0 cs.

Definition returned (cs : list call) : Z :=
  fold_right (fun c acc => match c with CallReturn a => a + acc | _ => acc end) 0 cs.

Definition isCritical (e : event) : bool :=
  match e with EvCritical _ => true | _ => false end.

(** The waiter that the release loops would look at next is one that [try]
    refuses: the head of the priority fifo, or with no priority waiter the
    head of the normal fifo. *)
Definition stalled (mm : memoryManager) : Prop :=
  match priorityFifo mm with
  | w :: _ => fst (try mm (amount w) memoryPriorityHigh) = false
  | [] => normalHeadWaits mm
  end.

(** The channels made by the requests of a sequence of calls, and those of
    the waiters in the fifos. *)
Definition chansOf (cs : list call) : list chan :=
  flat_map (fun c => match c with CallRequest _ _ ch => [ch] | _ => [] end) cs.

Definition queuedChans (mm : memoryManager) : list chan :=
  map done (priorityFifo mm) ++ map done (fifo mm).

(** The events of a sequence of calls, in order.  [Request] closes nothing
    and reports nothing under the mutex. *)
Fixpoint trace (defaultMemory : Z) (cs : list call) (mm : memoryManager) : list event :=
  match cs with
  | [] => []
  | CallRequest amt priority newDone :: cs' =>
    trace defaultMemory cs' (snd (Request mm amt priority newDone))
  | CallReturn amt :: cs' =>
    snd (Return defaultMemory mm amt) ++ trace defaultMemory cs' (fst (Return defaultMemory mm amt))
  end.

(** * Properties *)

(** ** Proof steps used more than once *)

Ltac same_record :=
  unfold sameButGC, set_memSinceGC, set_underflow, set_available; cbn;
  f_equal; solve [reflexivity | lia].

Ltac open_accounted H :=
  destruct H as [[?Hav0 ?Hav1] ?Hb ?Hu ?Hd ?Hr ?Hq ?Hpq].

(** ** 64-bit arithmetic *)

Lemma modulus_pos : 0 < U64.modulus.
Proof. reflexivity. Qed.

Lemma wrap_ok (z : Z) : U64.ok (U64.wrap z).
Proof. unfold U64.ok, U64.wrap. apply Z.mod_pos_bound. exact modulus_pos. Qed.

Lemma wrap_small (z : Z) : U64.ok z -> U64.wrap z = z.
Proof. unfold U64.ok, U64.wrap. intros H. apply Z.mod_small. exact H. Qed.

Lemma add_ok (a b : Z) : U64.ok (U64.add a b).
Proof. apply wrap_ok. Qed.

Lemma sub_ok (a b : Z) : U64.ok (U64.sub a b).
Proof. apply wrap_ok. Qed.

Lemma add_small (a b : Z) :
  0 <= a -> 0 <= b -> a + b < U64.modulus -> U64.add a b = a + b.
Proof. intros. apply wrap_small. unfold U64.ok. lia. Qed.

Lemma sub_small (a b : Z) :
  0 <= b <= a -> a < U64.modulus -> U64.sub a b = a - b.
Proof. intros. apply wrap_small. unfold U64.ok. lia. Qed.

(** Subtracting and adding back the same amount is the identity on
    [uint64], whether or not the subtraction wrapped. *)
Lemma add_sub_cancel (a n : Z) : U64.ok a -> U64.add (U64.sub a n) n = a.
Proof.
  unfold U64.add, U64.sub, U64.wrap, U64.ok. intros H.
  rewrite Zplus_mod_idemp_l.
  replace (a - n + n) with a by ring.
  apply Z.mod_small. exact H.
Qed.

Lemma sub_diag (a : Z) : U64.sub a a = 0.
Proof. unfold U64.sub, U64.wrap. rewrite Z.sub_diag. reflexivity. Qed.

Lemma add_0_r (a : Z) : U64.ok a -> U64.add a 0 = a.
Proof. intros H. unfold U64.add. rewrite Z.add_0_r. apply wrap_small, H. Qed.

Lemma add_0_l (a : Z) : U64.ok a -> U64.add 0 a = a.
Proof. intros H. unfold U64.add. rewrite Z.add_0_l. apply wrap_small, H. Qed.

(** ** The record *)

Lemma manager_eta (mm : memoryManager) :
  mm = mkManager (available mm) (base mm) (memSinceGC mm) (priorityReserve mm)
                 (underflow mm) (fifo mm) (priorityFifo mm) (stop mm).
Proof. destruct mm; reflexivity. Qed.

Lemma set_available_same (mm : memoryManager) : set_available (available mm) mm = mm.
Proof. destruct mm; reflexivity. Qed.

Lemma set_fifo_same (mm : memoryManager) : set_fifo (fifo mm) mm = mm.
Proof. destruct mm; reflexivity. Qed.

Lemma set_priorityFifo_same (mm : memoryManager) :
  set_priorityFifo (priorityFifo mm) mm = mm.
Proof. destruct mm; reflexivity. Qed.

(** ** try *)

(** [try] has three outcomes, selected by its two guards. *)
Lemma try_cases (mm : memoryManager) (amt : Z) (priority : bool) :
  (enoughMemory mm amt priority = true /\
   try mm amt priority = (true, set_available (U64.sub (available mm) amt) mm))
  \/ (enoughMemory mm amt priority = false /\ noneInUse mm amt = true /\
      try mm amt priority =
      (true, set_underflow (U64.sub amt (base mm)) (set_available 0 mm)))
  \/ (enoughMemory mm amt priority = false /\ noneInUse mm amt = false /\
      try mm amt priority = (false, mm)).
Proof.
  unfold try.
  destruct (enoughMemory mm amt priority); [left; auto|].
  destruct (noneInUse mm amt); [right; left; auto | right; right; auto].
Qed.

(** [try] writes [available] and [underflow] only. *)
Lemma try_frame (mm : memoryManager) (amt : Z) (priority : bool) :
  let mm' := snd (try mm amt priority) in
  base mm' = base mm /\ memSinceGC mm' = memSinceGC mm /\
  priorityReserve mm' = priorityReserve mm /\
  fifo mm' = fifo mm /\ priorityFifo mm' = priorityFifo mm /\ stop mm' = stop mm.
Proof.
  destruct (try_cases mm amt priority) as [[_ E]|[(_ & _ & E)|(_ & _ & E)]];
    rewrite E; cbn; repeat split.
Qed.

(** A failed [try] leaves the manager as it was. *)
Lemma try_refused (mm : memoryManager) (amt : Z) (priority : bool) :
  fst (try mm amt priority) = false -> snd (try mm amt priority) = mm.
Proof.
  destruct (try_cases mm amt priority) as [[_ E]|[(_ & _ & E)|(_ & _ & E)]];
    rewrite E; cbn; congruence.
Qed.

(** [try] does not read [memSinceGC] or the queues. *)
Lemma try_ignores_gc (v : Z) (mm : memoryManager) (amt : Z) (priority : bool) :
  try (set_memSinceGC v mm) amt priority =
  (fst (try mm amt priority), set_memSinceGC v (snd (try mm amt priority))).
Proof.
  unfold try, enoughMemory, noneInUse; cbn.
  destruct (_ || _); [reflexivity|].
  destruct (_ && _); reflexivity.
Qed.

(** When [amount + priorityReserve] does not wrap, the first guard of
    [try] is the comparison of the data model: priority callers need
    [amount], the others [amount + priorityReserve]. *)
Lemma enoughMemory_fits (mm : memoryManager) (amt : Z) (priority : bool) :
  0 <= priorityReserve mm -> fits (priorityReserve mm) amt ->
  enoughMemory mm amt priority =
  if priority then amt <=? available mm
  else amt + priorityReserve mm <=? available mm.
Proof.
  intros Hr [Ha Hs]. unfold enoughMemory.
  rewrite add_small by lia.
  destruct priority; cbn.
  - destruct (Z.leb_spec (amt + priorityReserve mm) (available mm));
      destruct (Z.leb_spec amt (available mm)); try reflexivity; lia.
  - apply orb_false_r.
Qed.

(** The admission predicate on requests whose [amount + priorityReserve]
    does not wrap: the three cases of the data model, with exact
    arithmetic. *)
Theorem try_fits (mm : memoryManager) (amt : Z) (priority : bool) :
  0 <= available mm < U64.modulus -> 0 <= base mm ->
  0 <= priorityReserve mm -> fits (priorityReserve mm) amt ->
  try mm amt priority =
  if (if priority then amt <=? available mm
      else amt + priorityReserve mm <=? available mm)
  then (true, set_available (available mm - amt) mm)
  else if (available mm =? base mm) && (available mm <=? amt)
  then (true, set_underflow (amt - base mm) (set_available 0 mm))
  else (false, mm).
Proof.
  intros Hav Hb Hr Hf. unfold try.
  rewrite (enoughMemory_fits mm amt priority Hr Hf).
  destruct Hf as [Ha Hs].
  assert (Hle : (if priority then amt <=? available mm
                 else amt + priorityReserve mm <=? available mm) = true ->
                amt <= available mm).
  { destruct priority; intros H; apply Z.leb_le in H; lia. }
  destruct (if priority then _ else _).
  - rewrite sub_small; [reflexivity | specialize (Hle eq_refl); lia | lia].
  - unfold noneInUse.
    destruct (Z.eqb_spec (available mm) (base mm)) as [E|]; cbn; [|reflexivity].
    destruct (Z.leb_spec (available mm) amt); [|reflexivity].
    rewrite sub_small; [reflexivity | lia | lia].
Qed.

(** C1 (the code departs from the claim).  With 5 of 10 bytes in use and a
    reserve of 1, a priority request for [2^64 - 1] bytes meets neither
    condition of the claim ([available >= amount] fails, and the pool is not
    idle), yet [try] returns true and raises [available] from 5 to 6: the
    sum [amount + priorityReserve] at line 69 wrapped to 0. *)
Theorem try_grants_on_wrapped_sum :
  let mm := snd (Request (newMemoryManager 10 1 0%nat) 5 false 1%nat) in
  (available mm = 5 /\ base mm = 10 /\ priorityReserve mm = 1 /\ underflow mm = 0)
  /\ (U64.max <=? available mm) = false
  /\ (available mm =? base mm) = false
  /\ U64.add U64.max (priorityReserve mm) = 0
  /\ try mm U64.max true = (true, set_available 6 mm).
Proof. vm_compute. repeat split. Qed.

(** ** Request *)

Lemma shouldTry_spec (mm : memoryManager) (priority : bool) :
  shouldTry mm priority = true <->
  priorityFifo mm = [] /\ (priority = true \/ fifo mm = []).
Proof.
  unfold shouldTry, memoryPriorityHigh.
  destruct (priorityFifo mm), (fifo mm), priority; cbn;
    intuition (auto; discriminate).
Qed.

(** The two ways [Request] leaves the mutex: the grant, and the waiter
    appended to the fifo of its class. *)
Lemma Request_cases
  (mm : memoryManager) (amt : Z) (priority : bool) (newDone : chan) :
  let w := {| amount := amt; done := newDone |} in
  let r := Request mm amt priority newDone in
  (fst r = Granted <->
   priorityFifo mm = [] /\ (priority = true \/ fifo mm = []) /\
   fst (try mm amt priority) = true)
  /\ (fst r = Granted ->
      snd r = snd (try mm amt priority) /\
      fifo (snd r) = fifo mm /\ priorityFifo (snd r) = priorityFifo mm)
  /\ (fst r <> Granted ->
      fst r = Blocked w /\
      snd r = if priority
              then set_priorityFifo (priorityFifo mm ++ [w]) mm
              else set_fifo (fifo mm ++ [w]) mm).
Proof.
  cbv zeta. unfold Request.
  pose proof (shouldTry_spec mm priority) as Hs.
  pose proof (try_refused mm amt priority) as Hr.
  pose proof (try_frame mm amt priority) as Hf. cbv zeta in Hf.
  destruct (shouldTry mm priority) eqn:Es.
  - destruct (proj1 Hs eq_refl) as [Hp Hq].
    destruct (try mm amt priority) as [[|] mm'] eqn:Et; cbn in *.
    + intuition congruence.
    + rewrite (Hr eq_refl).
      destruct priority; cbn; intuition (try discriminate; auto).
  - assert (Hn : ~ (priorityFifo mm = [] /\ (priority = true \/ fifo mm = []))).
    { intros H. apply Hs in H. discriminate. }
    destruct priority; cbn; intuition (try discriminate; auto).
Qed.

(** C5.  [Request] returns at once exactly when the priority fifo is empty,
    the caller has priority or the normal fifo is empty, and [try]
    succeeds; the manager is then what [try] left, with both fifos as they
    were.  In every other case one waiter carrying [amount] joins the back
    of the fifo of the caller's class, and nothing else changes. *)
Theorem Request_grants_or_enqueues
  (mm : memoryManager) (amt : Z) (priority : bool) (newDone : chan) :
  let w := {| amount := amt; done := newDone |} in
  let r := Request mm amt priority newDone in
  (fst r = Granted <->
   priorityFifo mm = [] /\ (priority = true \/ fifo mm = []) /\
   fst (try mm amt priority) = true)
  /\ (fst r = Granted ->
      snd r = snd (try mm amt priority) /\
      fifo (snd r) = fifo mm /\ priorityFifo (snd r) = priorityFifo mm)
  /\ (fst r <> Granted ->
      fst r = Blocked w /\
      snd r = if priority
              then set_priorityFifo (priorityFifo mm ++ [w]) mm
              else set_fifo (fifo mm ++ [w]) mm).
Proof.
  cbv zeta. unfold Request.
  pose proof (shouldTry_spec mm priority) as Hs.
  pose proof (try_refused mm amt priority) as Hr.
  pose proof (try_frame mm amt priority) as Hf. cbv zeta in Hf.
  destruct (shouldTry mm priority) eqn:Es.
  - destruct (proj1 Hs eq_refl) as [Hp Hq].
    destruct (try mm amt priority) as [[|] mm'] eqn:Et; cbn in *.
    + intuition congruence.
    + rewrite (Hr eq_refl).
      destruct priority; cbn; intuition (try discriminate; auto).
  - assert (Hn : ~ (priorityFifo mm = [] /\ (priority = true \/ fifo mm = []))).
    { intros H. apply Hs in H. discriminate. }
    destruct priority; cbn; intuition (try discriminate; auto).
Qed.

(** The fast path of [Request], spelled out. *)
Lemma Request_granted (mm mm' : memoryManager) (amt : Z) (priority : bool) (newDone : chan) :
  Request mm amt priority newDone = (Granted, mm') ->
  priorityFifo mm = [] /\ (priority = true \/ fifo mm = []) /\
  try mm amt priority = (true, mm').
Proof.
  intros E.
  destruct (Request_cases mm amt priority newDone) as (H1 & H2 & _).
  cbv zeta in *. rewrite E in *. cbn in *.
  destruct (proj1 H1 eq_refl) as (Hp & Hq & Ht).
  destruct (H2 eq_refl) as (Hs & _).
  repeat split; auto.
  destruct (try mm amt priority); cbn in *; congruence.
Qed.

(** ** The release loops *)

Lemma closed_closeOf (q : list memoryRequest) : closed (map closeOf q) = map done q.
Proof. unfold closed. induction q as [|r q IH]; cbn; [reflexivity | now f_equal]. Qed.

Lemma closed_app (a b : list event) : closed (a ++ b) = closed a ++ closed b.
Proof. unfold closed. apply flat_map_app. Qed.

Lemma releasePriority_released (q : list memoryRequest) :
  forall mm, priorityFifo mm = q ->
  exists n, released q memoryPriorityHigh (releasePriority q mm) n /\
            priorityFifo (snd (fst (releasePriority q mm))) = skipn n q /\
            fifo (snd (fst (releasePriority q mm))) = fifo mm.
Proof.
  induction q as [|r q IH]; intros mm Hq.
  - exists 0%nat. cbn. repeat split; auto.
  - cbn [releasePriority].
    pose proof (try_frame mm (amount r) memoryPriorityHigh) as Hf.
    pose proof (try_refused mm (amount r) memoryPriorityHigh) as Hr.
    cbv zeta in Hf.
    destruct (try mm (amount r) memoryPriorityHigh) as [[|] mm1] eqn:Et; cbn in *.
    + destruct (IH (set_priorityFifo q mm1) eq_refl) as (n & [He Hfl] & Hp & Hn).
      destruct (releasePriority q (set_priorityFifo q mm1)) as [[fl mm2] evs].
      cbn in *. exists (S n). cbn.
      repeat split; try assumption.
      * now rewrite He.
      * rewrite Hn. tauto.
    + rewrite (Hr eq_refl) in *. exists 0%nat. cbn.
      repeat split; auto.
      exists r, q. split; [reflexivity|].
      unfold memoryPriorityHigh, memoryPriorityLow in *. cbn. rewrite Et. reflexivity.
Qed.

Lemma releaseNormal_released (q : list memoryRequest) :
  forall mm, fifo mm = q ->
  exists n, released q memoryPriorityLow (releaseNormal q mm) n /\
            fifo (snd (fst (releaseNormal q mm))) = skipn n q /\
            priorityFifo (snd (fst (releaseNormal q mm))) = priorityFifo mm.
Proof.
  induction q as [|r q IH]; intros mm Hq.
  - exists 0%nat. cbn. repeat split; auto.
  - cbn [releaseNormal].
    pose proof (try_frame mm (amount r) memoryPriorityLow) as Hf.
    pose proof (try_refused mm (amount r) memoryPriorityLow) as Hr.
    cbv zeta in Hf.
    destruct (try mm (amount r) memoryPriorityLow) as [[|] mm1] eqn:Et; cbn in *.
    + destruct (IH (set_fifo q mm1) eq_refl) as (n & [He Hfl] & Hp & Hn).
      destruct (releaseNormal q (set_fifo q mm1)) as [[fl mm2] evs].
      cbn in *. exists (S n). cbn.
      repeat split; try assumption.
      * now rewrite He.
      * rewrite Hn. tauto.
    + rewrite (Hr eq_refl) in *. exists 0%nat. cbn.
      repeat split; auto.
      exists r, q. split; [reflexivity|].
      unfold memoryPriorityHigh, memoryPriorityLow in *. cbn. rewrite Et. reflexivity.
Qed.

(** The loops write [available], [underflow] and their own fifo only. *)
Lemma releasePriority_frame (q : list memoryRequest) :
  forall mm,
  let mm' := snd (fst (releasePriority q mm)) in
  base mm' = base mm /\ memSinceGC mm' = memSinceGC mm /\
  priorityReserve mm' = priorityReserve mm /\ stop mm' = stop mm.
Proof.
  induction q as [|r q IH]; intros mm; cbn; [auto|].
  pose proof (try_frame mm (amount r) memoryPriorityHigh) as Hf. cbv zeta in Hf.
  destruct (try mm (amount r) memoryPriorityHigh) as [[|] mm1]; cbn in *; [|tauto].
  specialize (IH (set_priorityFifo q mm1)). cbv zeta in IH.
  destruct (releasePriority q (set_priorityFifo q mm1)) as [[fl mm2] evs].
  cbn in *. intuition congruence.
Qed.

Lemma releaseNormal_frame (q : list memoryRequest) :
  forall mm,
  let mm' := snd (fst (releaseNormal q mm)) in
  base mm' = base mm /\ memSinceGC mm' = memSinceGC mm /\
  priorityReserve mm' = priorityReserve mm /\ stop mm' = stop mm.
Proof.
  induction q as [|r q IH]; intros mm; cbn; [auto|].
  pose proof (try_frame mm (amount r) memoryPriorityLow) as Hf. cbv zeta in Hf.
  destruct (try mm (amount r) memoryPriorityLow) as [[|] mm1]; cbn in *; [|tauto].
  specialize (IH (set_fifo q mm1)). cbv zeta in IH.
  destruct (releaseNormal q (set_fifo q mm1)) as [[fl mm2] evs].
  cbn in *. intuition congruence.
Qed.

(** The two loops together: a prefix of the priority fifo is released,
    then a prefix of the normal fifo, and the second prefix is empty unless
    the priority fifo was emptied. *)
Lemma release_order (mm : memoryManager) :
  exists np nn : nat,
    snd (release mm) =
      map closeOf (firstn np (priorityFifo mm)) ++ map closeOf (firstn nn (fifo mm))
    /\ priorityFifo (fst (release mm)) = skipn np (priorityFifo mm)
    /\ fifo (fst (release mm)) = skipn nn (fifo mm)
    /\ (priorityFifo (fst (release mm)) = [] \/ nn = 0%nat).
Proof.
  unfold release.
  destruct (releasePriority_released (priorityFifo mm) mm eq_refl)
    as (np & [He Hfl] & Hp & Hn).
  destruct (releasePriority (priorityFifo mm) mm) as [[fl mm1] evsP]. cbn in *.
  destruct fl.
  - destruct (releaseNormal_released (fifo mm1) mm1 eq_refl)
      as (nn & [He' _] & Hn' & Hp').
    destruct (releaseNormal (fifo mm1) mm1) as [[fl' mm2] evsN]. cbn in *.
    exists np, nn. rewrite He, He', Hp', Hn', Hp, Hn, Hfl. auto.
  - exists np, 0%nat. cbn. rewrite app_nil_r. auto.
Qed.

(** A refused head of the priority fifo ends the release at once. *)
Lemma release_refused_head (mm : memoryManager) (w : memoryRequest) (q : list memoryRequest) :
  priorityFifo mm = w :: q ->
  fst (try mm (amount w) memoryPriorityHigh) = false ->
  release mm = (mm, []).
Proof.
  intros Hq Ht. unfold release. rewrite Hq. cbn.
  pose proof (try_refused mm (amount w) memoryPriorityHigh Ht) as Hr.
  destruct (try mm (amount w) memoryPriorityHigh) as [g mm1]. cbn in *.
  subst. reflexivity.
Qed.

(** With no priority waiter and a refused (or no) normal head, the release
    does nothing. *)
Lemma release_idle (mm : memoryManager) :
  priorityFifo mm = [] ->
  match fifo mm with
  | [] => True
  | w :: _ => fst (try mm (amount w) memoryPriorityLow) = false
  end ->
  release mm = (mm, []).
Proof.
  intros Hp Hn. unfold release. rewrite Hp. cbn.
  destruct (fifo mm) as [|w q]; cbn; [reflexivity|].
  pose proof (try_refused mm (amount w) memoryPriorityLow Hn) as Hr.
  destruct (try mm (amount w) memoryPriorityLow) as [g mm1]. cbn in *.
  subst. reflexivity.
Qed.

Lemma release_frame (mm : memoryManager) :
  let mm' := fst (release mm) in
  base mm' = base mm /\ memSinceGC mm' = memSinceGC mm /\
  priorityReserve mm' = priorityReserve mm /\ stop mm' = stop mm.
Proof.
  unfold release.
  pose proof (releasePriority_frame (priorityFifo mm) mm) as H1. cbv zeta in H1.
  destruct (releasePriority (priorityFifo mm) mm) as [[fl mm1] evsP]. cbn in *.
  destruct fl; [|exact H1].
  pose proof (releaseNormal_frame (fifo mm1) mm1) as H2. cbv zeta in H2.
  destruct (releaseNormal (fifo mm1) mm1) as [[fl' mm2] evsN]. cbn in *.
  intuition congruence.
Qed.

(** ** Return *)

Lemma clearUnderflow_frame (mm : memoryManager) (amt : Z) :
  match clearUnderflow mm amt with
  | Paid m => m = set_underflow (underflow m) mm
  | Left m _ => m = set_underflow (underflow m) mm
  end.
Proof.
  unfold clearUnderflow.
  destruct (_ && _); [reflexivity|].
  destruct (_ && _); [reflexivity|].
  destruct mm; reflexivity.
Qed.

Lemma addAvailable_frame (mm : memoryManager) (amt : Z) :
  fst (addAvailable mm amt) = set_available (available (fst (addAvailable mm amt))) mm
  /\ filter isCollect (snd (addAvailable mm amt)) = []
  /\ closed (snd (addAvailable mm amt)) = [].
Proof.
  unfold addAvailable. cbn.
  destruct (base mm <? U64.add (available mm) amt); cbn; auto.
Qed.

Lemma release_events (mm : memoryManager) :
  filter isCollect (snd (release mm)) = [].
Proof.
  destruct (release_order mm) as (np & nn & He & _). rewrite He.
  rewrite <- map_app.
  induction (firstn np (priorityFifo mm) ++ firstn nn (fifo mm)); cbn; auto.
Qed.

Section ReturnFacts.

Variable defaultMemory : Z.

(** The counter block writes [memSinceGC] only. *)
Lemma countReturned_spec (mm : memoryManager) (amt : Z) :
  let c := U64.add (memSinceGC mm) amt in
  countReturned defaultMemory mm amt =
  if defaultMemory <? c
  then (set_memSinceGC 0 mm, [EvGC; EvFreeOSMemory])
  else (set_memSinceGC c mm, []).
Proof.
  cbv zeta. unfold countReturned. cbn.
  destruct (defaultMemory <? U64.add (memSinceGC mm) amt); reflexivity.
Qed.

(** [Return] as the sequence of its four blocks. *)
Lemma Return_blocks (mm : memoryManager) (amt : Z) :
  Return defaultMemory mm amt =
  match clearUnderflow (fst (countReturned defaultMemory mm amt)) amt with
  | Paid m => (m, snd (countReturned defaultMemory mm amt))
  | Left m a =>
    (fst (release (fst (addAvailable m a))),
     snd (countReturned defaultMemory mm amt) ++ snd (addAvailable m a)
         ++ snd (release (fst (addAvailable m a))))
  end.
Proof.
  unfold Return.
  destruct (countReturned defaultMemory mm amt) as [mm1 ev1]. cbn.
  destruct (clearUnderflow mm1 amt) as [m|m a]; [reflexivity|].
  destruct (addAvailable m a) as [mm2 ev2]. cbn.
  destruct (release mm2) as [mm3 ev3]. reflexivity.
Qed.

Lemma countReturned_frame (mm : memoryManager) (amt : Z) :
  fst (countReturned defaultMemory mm amt) =
    set_memSinceGC (memSinceGC (fst (countReturned defaultMemory mm amt))) mm
  /\ closed (snd (countReturned defaultMemory mm amt)) = []
  /\ filter (fun e => negb (isCollect e)) (snd (countReturned defaultMemory mm amt)) = [].
Proof.
  rewrite countReturned_spec. cbv zeta.
  destruct (defaultMemory <? U64.add (memSinceGC mm) amt); cbn; auto.
Qed.

(** The counter block on the 64-bit sum.  Whatever the state, [Return]
    first adds [amount] to [memSinceGC] (a 64-bit addition, which may
    wrap); if the counter is then above
    [defaultMemory], the collector runs ([runtime.GC] and
    [debug.FreeOSMemory], before anything else [Return] does) and the
    counter is zero; no later block of [Return] touches the counter or
    runs the collector.  The statement has no condition on [underflow],
    so it covers the call that ends in the underflow block. *)
Theorem Return_counts_then_collects (mm : memoryManager) (amt : Z) :
  let c := U64.add (memSinceGC mm) amt in
  let r := Return defaultMemory mm amt in
  memSinceGC (fst r) = (if defaultMemory <? c then 0 else c)
  /\ exists rest,
       snd r = (if defaultMemory <? c then [EvGC; EvFreeOSMemory] else []) ++ rest
       /\ filter isCollect rest = [].
Proof.
  cbv zeta. rewrite Return_blocks, countReturned_spec. cbv zeta.
  set (c := U64.add (memSinceGC mm) amt).
  set (mm1 := fst (if defaultMemory <? c
                   then (set_memSinceGC 0 mm, [EvGC; EvFreeOSMemory])
                   else (set_memSinceGC c mm, []))).
  assert (Hc : memSinceGC mm1 = if defaultMemory <? c then 0 else c).
  { subst mm1. destruct (defaultMemory <? c); reflexivity. }
  assert (He : snd (if defaultMemory <? c
                    then (set_memSinceGC 0 mm, [EvGC; EvFreeOSMemory])
                    else (set_memSinceGC c mm, [])) =
               if defaultMemory <? c then [EvGC; EvFreeOSMemory] else []).
  { destruct (defaultMemory <? c); reflexivity. }
  rewrite He. clearbody mm1.
  pose proof (clearUnderflow_frame mm1 amt) as Hu.
  destruct (clearUnderflow mm1 amt) as [m|m a]; cbn [fst snd].
  - split; [rewrite Hu; exact Hc|].
    exists []. rewrite app_nil_r. auto.
  - destruct (addAvailable_frame m a) as (Ha & Hg & _).
    destruct (release_frame (fst (addAvailable m a))) as (_ & Hm & _).
    split.
    + rewrite Hm, Ha. cbn. rewrite Hu. exact Hc.
    + eexists. split; [reflexivity|].
      rewrite filter_app, Hg, release_events. reflexivity.
Qed.

(** C6.  With an underflow outstanding and an [amount] that does not
    exceed it, [Return] lowers [underflow] by [amount] and returns:
    [available], [base], [priorityReserve] and both fifos are as before,
    no channel is closed and nothing is reported; the only other effect
    is that of the counter block. *)
Theorem Return_pays_underflow (mm : memoryManager) (amt : Z) :
  U64.ok amt -> underflow mm < U64.modulus ->
  0 < underflow mm -> amt <= underflow mm ->
  let r := Return defaultMemory mm amt in
  fst r = set_underflow (underflow mm - amt) (fst (countReturned defaultMemory mm amt))
  /\ snd r = snd (countReturned defaultMemory mm amt)
  /\ underflow (fst r) = underflow mm - amt
  /\ available (fst r) = available mm
  /\ fifo (fst r) = fifo mm /\ priorityFifo (fst r) = priorityFifo mm
  /\ closed (snd r) = []
  /\ filter (fun e => negb (isCollect e)) (snd r) = [].
Proof.
  intros [Ha0 Ha1] Hu1 Hu0 Hle. cbv zeta.
  rewrite Return_blocks.
  destruct (countReturned_frame mm amt) as (Hf & Hc & Hn).
  set (mm1 := fst (countReturned defaultMemory mm amt)) in *.
  assert (Hu : underflow mm1 = underflow mm) by (rewrite Hf; reflexivity).
  unfold clearUnderflow. rewrite Hu.
  replace (0 <? underflow mm) with true by (symmetry; apply Z.ltb_lt; lia).
  replace (amt <=? underflow mm) with true by (symmetry; apply Z.leb_le; lia).
  cbn [andb fst snd].
  rewrite sub_small by lia.
  repeat split; try assumption; cbn; rewrite Hf; reflexivity.
Qed.

(** The sanity check on the 64-bit sum.  When the underflow block falls
    through with manager [m] and remaining amount [a], and the 64-bit sum
    [available + a], as the code computes it, is above
    [base], then [Return] stores exactly [base] in [available], reports
    the violation through [build.Critical], which returns, and goes on to
    the release loops from the clamped manager. *)
Theorem Return_clamps_and_reports (mm m : memoryManager) (amt a : Z) :
  clearUnderflow (fst (countReturned defaultMemory mm amt)) amt = Left m a ->
  base m < U64.add (available m) a ->
  let clamped := set_available (base m) m in
  available clamped = base mm
  /\ Return defaultMemory mm amt =
     (fst (release clamped),
      snd (countReturned defaultMemory mm amt)
        ++ [EvCritical tooMuchReturned] ++ snd (release clamped)).
Proof.
  intros Hc Hlt. cbv zeta.
  rewrite Return_blocks, Hc.
  pose proof (clearUnderflow_frame (fst (countReturned defaultMemory mm amt)) amt) as Hu.
  rewrite Hc in Hu.
  destruct (countReturned_frame mm amt) as (Hf & _).
  assert (Hb : base m = base mm).
  { rewrite Hu. cbn. rewrite Hf. reflexivity. }
  unfold addAvailable. cbn [base available set_available].
  replace (base m <? U64.add (available m) a) with true
    by (symmetry; apply Z.ltb_lt; exact Hlt).
  cbn [fst snd Critical]. split; [exact Hb|].
  reflexivity.
Qed.

(** C3.  The channels [Return] closes are those of the first [np]
    priority waiters followed by those of the first [nn] normal waiters,
    those waiters are exactly the ones removed from the fifos, and [nn]
    is zero unless the priority fifo has been emptied.  In particular a
    head of the priority fifo that [try] refuses ends the release with no
    waiter of either class released, whatever the amounts. *)
Theorem Return_priority_first (mm : memoryManager) (amt : Z) :
  let r := Return defaultMemory mm amt in
  (exists np nn : nat,
      closed (snd r) =
        map done (firstn np (priorityFifo mm)) ++ map done (firstn nn (fifo mm))
      /\ priorityFifo (fst r) = skipn np (priorityFifo mm)
      /\ fifo (fst r) = skipn nn (fifo mm)
      /\ (priorityFifo (fst r) = [] \/ nn = 0%nat))
  /\ (forall (s : memoryManager) (w : memoryRequest) (q : list memoryRequest),
        priorityFifo s = w :: q ->
        fst (try s (amount w) memoryPriorityHigh) = false ->
        release s = (s, [])).
Proof.
  cbv zeta. split; [|intros s w q; apply release_refused_head].
  rewrite Return_blocks.
  destruct (countReturned_frame mm amt) as (Hf & Hc & _).
  pose proof (clearUnderflow_frame (fst (countReturned defaultMemory mm amt)) amt) as Hu.
  destruct (clearUnderflow (fst (countReturned defaultMemory mm amt)) amt) as [m|m a];
    cbn [fst snd].
  - exists 0%nat, 0%nat. cbn [firstn skipn map app].
    rewrite Hc, Hu. cbn. rewrite Hf. cbn. auto.
  - destruct (addAvailable_frame m a) as (Ha & _ & Hca).
    destruct (release_order (fst (addAvailable m a))) as (np & nn & He & Hp & Hn & Hor).
    assert (Hpq : priorityFifo (fst (addAvailable m a)) = priorityFifo mm).
    { rewrite Ha. cbn. rewrite Hu. cbn. rewrite Hf. reflexivity. }
    assert (Hnq : fifo (fst (addAvailable m a)) = fifo mm).
    { rewrite Ha. cbn. rewrite Hu. cbn. rewrite Hf. reflexivity. }
    exists np, nn.
    rewrite !closed_app, Hc, Hca, He, closed_app, !closed_closeOf.
    rewrite Hp, Hn, Hpq, Hnq in *. cbn [app]. auto.
Qed.

End ReturnFacts.

Section RoundTrip.

Variable defaultMemory : Z.

Lemma normalHeadWaits_gc (v : Z) (mm : memoryManager) :
  normalHeadWaits mm -> normalHeadWaits (set_memSinceGC v mm).
Proof.
  unfold normalHeadWaits. cbn. destruct (fifo mm) as [|w q]; [auto|].
  rewrite try_ignores_gc. auto.
Qed.

Lemma release_after_round_trip
  (v : Z) (mm s : memoryManager) (ev1 ev2 : list event) :
  s = set_memSinceGC v mm -> priorityFifo mm = [] -> normalHeadWaits mm ->
  closed ev1 = [] -> closed ev2 = [] ->
  sameButGC (fst (release s)) mm /\ closed (ev1 ++ ev2 ++ snd (release s)) = [].
Proof.
  intros -> Hp Hw H1 H2.
  rewrite release_idle; [|exact Hp|apply normalHeadWaits_gc, Hw].
  cbn [fst snd]. rewrite !closed_app, H1, H2. split; reflexivity.
Qed.

(** The round trip from a quiet state. *)
Lemma round_trip_quiet
  (mm mm1 : memoryManager) (n : Z) (priority : bool) (newDone : chan) :
  0 <= available mm <= base mm -> base mm < U64.modulus ->
  underflow mm = 0 -> normalHeadWaits mm -> U64.ok n ->
  Request mm n priority newDone = (Granted, mm1) ->
  sameButGC (fst (Return defaultMemory mm1 n)) mm
  /\ closed (snd (Return defaultMemory mm1 n)) = [].
Proof.
  intros Hav Hb Hu Hw [Hn0 Hn1] Hreq.
  destruct (Request_granted _ _ _ _ _ Hreq) as (Hp & _ & Ht).
  rewrite Return_blocks.
  destruct (countReturned_frame defaultMemory mm1 n) as (Hf & Hc & _).
  destruct (countReturned defaultMemory mm1 n) as [mm2 ev1]. cbn [fst snd] in *.
  set (v := memSinceGC mm2) in Hf. clearbody v. subst mm2.
  clear Hreq.
  destruct (try_cases mm n priority) as [[_ E]|[(_ & Hi & E)|(_ & _ & E)]];
    rewrite E in Ht; inversion Ht; subst mm1; clear Ht E.
  - (* enough memory *)
    unfold clearUnderflow. cbn [underflow set_memSinceGC set_available].
    rewrite Hu. cbn [Z.ltb Z.compare andb].
    unfold addAvailable. cbn [available base set_available set_memSinceGC].
    rewrite add_sub_cancel by (unfold U64.ok; lia).
    replace (base mm <? available mm) with false by (symmetry; apply Z.ltb_ge; lia).
    cbn [fst snd].
    apply release_after_round_trip with (v := v); auto.
  - (* none in use *)
    unfold noneInUse in Hi. apply andb_true_iff in Hi. destruct Hi as [Hi1 Hi2].
    apply Z.eqb_eq in Hi1. apply Z.leb_le in Hi2.
    unfold clearUnderflow. cbn [underflow set_memSinceGC set_available set_underflow].
    rewrite sub_small by lia.
    destruct (Z.ltb_spec 0 (n - base mm)) as [Hpos|Hzero]; cbn [andb].
    + destruct (Z.leb_spec n (n - base mm)) as [Hall|Hpart].
      * (* base = 0: the whole amount pays the underflow *)
        cbn [fst snd]. split; [|exact Hc].
        assert (Hb0 : base mm = 0) by lia.
        rewrite sub_small by lia.
        destruct mm; cbn in *; subst; same_record.
      * replace (n - base mm <? n) with true by (symmetry; apply Z.ltb_lt; lia).
        unfold addAvailable.
        cbn [available base set_available set_memSinceGC set_underflow].
        rewrite sub_small by lia.
        replace (n - (n - base mm)) with (base mm) by ring.
        rewrite add_0_l by (unfold U64.ok; lia).
        rewrite Z.ltb_irrefl. cbn [fst snd].
        apply release_after_round_trip with (v := v); auto.
        destruct mm; cbn in *; subst; same_record.
    + assert (Hnb : n = base mm) by lia.
      replace (n - base mm) with 0 by lia.
      unfold addAvailable.
      cbn [available base set_available set_memSinceGC set_underflow].
      rewrite add_0_l by (unfold U64.ok; lia).
      replace (base mm <? n) with false by (symmetry; apply Z.ltb_ge; lia).
      cbn [fst snd].
      apply release_after_round_trip with (v := v); auto.
      destruct mm; cbn in *; subst; same_record.
Qed.

End RoundTrip.

(** ** The accounting invariant, for requests that do not wrap *)

Lemma accounted_new (baseMemory priorityMemory : Z) (stopChan : chan) :
  U64.ok baseMemory -> 0 <= priorityMemory ->
  accounted (newMemoryManager baseMemory priorityMemory stopChan).
Proof.
  intros [H0 H1] Hr. constructor; cbn; try lia; auto.
  unfold U64.ok. pose proof modulus_pos. lia.
Qed.

Lemma accounted_try (mm : memoryManager) (amt : Z) (priority : bool) :
  accounted mm -> fits (priorityReserve mm) amt ->
  accounted (snd (try mm amt priority)).
Proof.
  intros H Hf. pose proof H as H'. open_accounted H.
  rewrite try_fits by (try assumption; lia).
  destruct Hf as [Ha Hs]. destruct Hu as [Hu0 Hu1].
  destruct (if priority then _ else _) eqn:Eg.
  - assert (amt <= available mm).
    { destruct priority; apply Z.leb_le in Eg; lia. }
    constructor; cbn; auto; try lia. unfold U64.ok; lia.
  - destruct (Z.eqb_spec (available mm) (base mm)); cbn [andb fst snd]; [|exact H'].
    destruct (Z.leb_spec (available mm) amt); cbn [fst snd]; [|exact H'].
    constructor; cbn; auto; try lia. unfold U64.ok; lia.
Qed.

Lemma accounted_Request (mm : memoryManager) (amt : Z) (priority : bool) (newDone : chan) :
  accounted mm -> fits (priorityReserve mm) amt ->
  accounted (snd (Request mm amt priority newDone)).
Proof.
  intros H Hf.
  destruct (Request_cases mm amt priority newDone) as (_ & Hg & Hb).
  cbv zeta in *.
  destruct (fst (Request mm amt priority newDone)) eqn:E.
  - destruct (Hg eq_refl) as (-> & _). apply accounted_try; assumption.
  - destruct Hb as (_ & ->); [discriminate|].
    open_accounted H.
    destruct priority; constructor; cbn; auto;
      apply Forall_app; split; auto.
Qed.

Lemma accounted_releasePriority (q : list memoryRequest) :
  forall mm, accounted mm -> priorityFifo mm = q ->
  accounted (snd (fst (releasePriority q mm))).
Proof.
  induction q as [|r q IH]; intros mm H Hq; cbn; [exact H|].
  assert (Hfit : fits (priorityReserve mm) (amount r)).
  { open_accounted H. rewrite Hq in Hpq. now inversion Hpq. }
  pose proof (accounted_try mm (amount r) memoryPriorityHigh H Hfit) as H1.
  pose proof (try_frame mm (amount r) memoryPriorityHigh) as Hf. cbv zeta in Hf.
  destruct (try mm (amount r) memoryPriorityHigh) as [[|] mm1]; cbn in *; [|exact H1].
  specialize (IH (set_priorityFifo q mm1)).
  destruct (releasePriority q (set_priorityFifo q mm1)) as [[fl mm2] evs].
  cbn in *. apply IH; [|reflexivity].
  destruct Hf as (_ & _ & _ & _ & Hp & _).
  open_accounted H1. constructor; cbn; auto.
  rewrite Hp, Hq in Hpq. now inversion Hpq.
Qed.

Lemma accounted_releaseNormal (q : list memoryRequest) :
  forall mm, accounted mm -> fifo mm = q ->
  accounted (snd (fst (releaseNormal q mm))).
Proof.
  induction q as [|r q IH]; intros mm H Hq; cbn; [exact H|].
  assert (Hfit : fits (priorityReserve mm) (amount r)).
  { open_accounted H. rewrite Hq in Hq0. now inversion Hq0. }
  pose proof (accounted_try mm (amount r) memoryPriorityLow H Hfit) as H1.
  pose proof (try_frame mm (amount r) memoryPriorityLow) as Hf. cbv zeta in Hf.
  destruct (try mm (amount r) memoryPriorityLow) as [[|] mm1]; cbn in *; [|exact H1].
  specialize (IH (set_fifo q mm1)).
  destruct (releaseNormal q (set_fifo q mm1)) as [[fl mm2] evs].
  cbn in *. apply IH; [|reflexivity].
  destruct Hf as (_ & _ & _ & Hp & _).
  open_accounted H1. constructor; cbn; auto.
  rewrite Hp, Hq in Hq0. now inversion Hq0.
Qed.

Lemma accounted_release (mm : memoryManager) :
  accounted mm -> accounted (fst (release mm)).
Proof.
  intros H. unfold release.
  pose proof (accounted_releasePriority (priorityFifo mm) mm H eq_refl) as H1.
  destruct (releasePriority (priorityFifo mm) mm) as [[fl mm1] evsP]. cbn in *.
  destruct fl; [|exact H1].
  pose proof (accounted_releaseNormal (fifo mm1) mm1 H1 eq_refl) as H2.
  destruct (releaseNormal (fifo mm1) mm1) as [[fl' mm2] evsN]. exact H2.
Qed.

Lemma accounted_Return (defaultMemory : Z) (mm : memoryManager) (amt : Z) :
  accounted mm -> U64.ok amt -> accounted (fst (Return defaultMemory mm amt)).
Proof.
  intros H [Ha0 Ha1]. rewrite Return_blocks.
  destruct (countReturned_frame defaultMemory mm amt) as (Hf & _).
  set (mm1 := fst (countReturned defaultMemory mm amt)) in *.
  assert (H1 : accounted mm1).
  { rewrite Hf. open_accounted H. constructor; cbn; auto. }
  clearbody mm1. clear Hf H. open_accounted H1. destruct Hu as [Hu0 Hu1].
  unfold clearUnderflow.
  destruct (Z.ltb_spec 0 (underflow mm1)) as [Hpos|Hzero]; cbn [andb].
  - specialize (Hd Hpos).
    destruct (Z.leb_spec amt (underflow mm1)) as [Hle|Hgt]; cbn [fst snd].
    + rewrite sub_small by lia.
      constructor; cbn; auto; try lia. unfold U64.ok; lia.
    + replace (underflow mm1 <? amt) with true by (symmetry; apply Z.ltb_lt; lia).
      apply accounted_release. unfold addAvailable. cbn.
      pose proof (add_ok (available mm1) (U64.sub amt (underflow mm1))) as [Hs0 Hs1].
      destruct (Z.ltb_spec (base mm1) (U64.add (available mm1) (U64.sub amt (underflow mm1))));
        constructor; cbn; auto; try lia; unfold U64.ok; lia.
  - apply accounted_release. unfold addAvailable. cbn.
    pose proof (add_ok (available mm1) amt) as [Hs0 Hs1].
    destruct (Z.ltb_spec (base mm1) (U64.add (available mm1) amt));
      constructor; cbn; auto; try lia; unfold U64.ok; lia.
Qed.

Lemma Request_reserve (mm : memoryManager) (amt : Z) (priority : bool) (newDone : chan) :
  priorityReserve (snd (Request mm amt priority newDone)) = priorityReserve mm.
Proof.
  destruct (Request_cases mm amt priority newDone) as (_ & Hg & Hb).
  cbv zeta in *.
  destruct (fst (Request mm amt priority newDone)) eqn:E.
  - destruct (Hg eq_refl) as (-> & _). apply try_frame.
  - destruct Hb as (_ & ->); [discriminate|]. destruct priority; reflexivity.
Qed.

Lemma Return_reserve (defaultMemory : Z) (mm : memoryManager) (amt : Z) :
  priorityReserve (fst (Return defaultMemory mm amt)) = priorityReserve mm.
Proof.
  rewrite Return_blocks.
  destruct (countReturned_frame defaultMemory mm amt) as (Hf & _).
  pose proof (clearUnderflow_frame (fst (countReturned defaultMemory mm amt)) amt) as Hu.
  destruct (clearUnderflow (fst (countReturned defaultMemory mm amt)) amt) as [m|m a];
    cbn [fst snd].
  - rewrite Hu. cbn. rewrite Hf. reflexivity.
  - destruct (release_frame (fst (addAvailable m a))) as (_ & _ & Hr & _).
    destruct (addAvailable_frame m a) as (Ha & _).
    rewrite Hr, Ha. cbn. rewrite Hu. cbn. rewrite Hf. reflexivity.
Qed.

(** The invariant of the data model holds after every sequence of calls in
    which no request makes [amount + priorityReserve] wrap. *)
Theorem accounted_run (defaultMemory : Z) (cs : list call) :
  forall mm, accounted mm -> Forall (callFits (priorityReserve mm)) cs ->
  accounted (run defaultMemory cs mm).
Proof.
  induction cs as [|c cs IH]; intros mm H Hcs; cbn; [exact H|].
  inversion Hcs as [|c' cs' Hc Hrest]; subst.
  apply IH.
  - destruct c as [amt priority newDone|amt]; cbn in *.
    + apply accounted_Request; assumption.
    + apply accounted_Return; assumption.
  - destruct c as [amt priority newDone|amt]; cbn.
    + rewrite Request_reserve. exact Hrest.
    + rewrite Return_reserve. exact Hrest.
Qed.

Corollary fitting_calls_keep_bounds
  (defaultMemory baseMemory priorityMemory : Z) (stopChan : chan) (cs : list call) :
  U64.ok baseMemory -> 0 <= priorityMemory ->
  Forall (callFits priorityMemory) cs ->
  let mm := run defaultMemory cs (newMemoryManager baseMemory priorityMemory stopChan) in
  available mm <= base mm /\ (0 < underflow mm -> available mm = 0).
Proof.
  intros Hb Hr Hcs.
  pose proof (accounted_run defaultMemory cs _ (accounted_new _ _ stopChan Hb Hr) Hcs) as H.
  open_accounted H. cbv zeta. split; [lia | assumption].
Qed.

(** C2 (the code departs from the claim).  After
    [newMemoryManager(10, 1, stop)], the single call
    [Request(2^64 - 1, false)] returns true and leaves [available = 11],
    above [base = 10]; and after [Request(12, false)], which borrows with
    [underflow = 2], the call [Request(2^64 - 1, false)] returns true and
    leaves [available = 1] while the underflow is still 2.  In both calls
    [amount + priorityReserve] wrapped to 0 at line 69. *)
Theorem Request_wrap_breaks_bounds :
  let mm0 := newMemoryManager 10 1 0%nat in
  let r1 := Request mm0 U64.max false 1%nat in
  let r2 := Request mm0 12 false 1%nat in
  let r3 := Request (snd r2) U64.max false 2%nat in
  (fst r1 = Granted /\ available (snd r1) = 11 /\ base (snd r1) = 10)
  /\ (fst r2 = Granted /\ fst r3 = Granted /\
      underflow (snd r3) = 2 /\ available (snd r3) = 1).
Proof. vm_compute. repeat split. Qed.

(** ** A normal request for the whole idle pool *)

(** When [base + priorityReserve] does not wrap and the reserve is not
    zero, a normal request for [base] bytes on an idle pool with empty
    fifos fails the first guard of [try], passes the second, and leaves
    [available = 0] and [underflow = 0]. *)
Lemma Request_whole_pool (mm : memoryManager) (newDone : chan) :
  available mm = base mm -> fifo mm = [] -> priorityFifo mm = [] ->
  0 <= base mm -> 0 < priorityReserve mm ->
  base mm + priorityReserve mm < U64.modulus ->
  enoughMemory mm (base mm) false = false
  /\ noneInUse mm (base mm) = true
  /\ Request mm (base mm) false newDone = (Granted, set_underflow 0 (set_available 0 mm)).
Proof.
  intros Ha Hq Hp Hb Hr Hs.
  assert (E1 : enoughMemory mm (base mm) false = false).
  { rewrite enoughMemory_fits by (unfold fits; lia). apply Z.leb_gt. lia. }
  assert (E2 : noneInUse mm (base mm) = true).
  { unfold noneInUse. rewrite Ha, Z.eqb_refl, Z.leb_refl. reflexivity. }
  repeat split; try assumption.
  unfold Request, shouldTry, try. rewrite Hq, Hp, E1, E2. cbn.
  rewrite sub_diag. reflexivity.
Qed.

(** C9 (the code departs from the claim).  With [base = 2^63] and
    [priorityReserve = 2^63] the first guard of [try] holds for a normal
    request of [base] bytes on the fresh manager, so the request is granted
    by the first branch, not by the borrow.  With [base = 10] and
    [priorityReserve = 2^64 - 1], three granted requests lead to an idle
    pool ([available = base], empty fifos) that carries [underflow = 2];
    the normal request for 10 bytes is then granted by the first branch and
    leaves [underflow = 2]. *)
Theorem whole_pool_request_on_wrapped_sum :
  let big := newMemoryManager (2 ^ 63) (2 ^ 63) 0%nat in
  let mm0 := newMemoryManager 10 U64.max 0%nat in
  let mm1 := snd (Request mm0 12 false 1%nat) in
  let mm2 := snd (Request mm1 1 false 2%nat) in
  let mm3 := snd (Request mm2 (U64.modulus - 11) false 3%nat) in
  let r := Request mm3 10 false 4%nat in
  (enoughMemory big (base big) false = true /\
   fst (Request big (base big) false 1%nat) = Granted)
  /\ (available mm3 = 10 /\ base mm3 = 10 /\ fifo mm3 = [] /\ priorityFifo mm3 = [])
  /\ enoughMemory mm3 10 false = true
  /\ fst r = Granted /\ available (snd r) = 0 /\ underflow (snd r) = 2.
Proof. vm_compute. repeat split. Qed.

(** ** A reserve above the base *)

(** With [priorityReserve > base], a normal request that does not wrap
    never passes the first guard of [try]; it is granted only by the
    borrow, on an idle pool. *)
Lemma reserve_above_base (mm : memoryManager) (amt : Z) :
  accounted mm -> base mm < priorityReserve mm -> fits (priorityReserve mm) amt ->
  enoughMemory mm amt false = false
  /\ (fst (try mm amt false) = true ->
      available mm = base mm /\ base mm <= amt /\
      snd (try mm amt false) = set_underflow (amt - base mm) (set_available 0 mm)).
Proof.
  intros H Hlt Hf. open_accounted H.
  assert (E : enoughMemory mm amt false = false).
  { rewrite enoughMemory_fits by assumption. apply Z.leb_gt. destruct Hf. lia. }
  split; [exact E|].
  rewrite try_fits by (try assumption; lia).
  replace (amt + priorityReserve mm <=? available mm) with false
    by (symmetry; apply Z.leb_gt; destruct Hf; lia).
  destruct (Z.eqb_spec (available mm) (base mm)); cbn [andb fst snd]; [|discriminate].
  destruct (Z.leb_spec (available mm) amt); cbn [fst snd]; [|discriminate].
  intros _. repeat split; [assumption | lia].
Qed.

(** C10 (the code departs from the claim).  [newMemoryManager(10, 11, stop)]
    is built without complaint, and on it the normal request for
    [2^64 - 11] bytes passes the first guard of [try], because
    [amount + priorityReserve] wraps to 0: it is granted by the first
    branch and leaves [available = 21]. *)
Theorem reserve_above_base_on_wrapped_sum :
  let mm := newMemoryManager 10 11 0%nat in
  let r := Request mm (U64.modulus - 11) false 1%nat in
  (base mm = 10 /\ priorityReserve mm = 11 /\ available mm = 10)
  /\ U64.add (U64.modulus - 11) (priorityReserve mm) = 0
  /\ enoughMemory mm (U64.modulus - 11) false = true
  /\ fst r = Granted /\ available (snd r) = 21 /\ underflow (snd r) = 0.
Proof. vm_compute. repeat split. Qed.

(** ** The round trip in reachable states *)

(** Whether [try] grants depends on [available], [base] and
    [priorityReserve] only. *)
Lemma try_reads (mm mm' : memoryManager) (amt : Z) (priority : bool) :
  available mm' = available mm -> base mm' = base mm ->
  priorityReserve mm' = priorityReserve mm ->
  fst (try mm' amt priority) = fst (try mm amt priority).
Proof.
  intros Ha Hb Hr. unfold try, enoughMemory, noneInUse. rewrite Ha, Hb, Hr.
  destruct (_ || _); [reflexivity|]. destruct (_ && _); reflexivity.
Qed.

(** A waiter refused before a grant is still refused after it. *)
Lemma refused_after_grant (mm : memoryManager) (n w : Z) (priority : bool) :
  accounted mm -> fits (priorityReserve mm) n -> fits (priorityReserve mm) w ->
  fst (try mm w memoryPriorityLow) = false ->
  fst (try mm n priority) = true ->
  fst (try (snd (try mm n priority)) w memoryPriorityLow) = false.
Proof.
  intros H Hn Hw. pose proof (accounted_try mm n priority H Hn) as H'.
  pose proof (try_frame mm n priority) as Hf. cbv zeta in Hf.
  destruct Hf as (Hb & _ & Hr & _).
  unfold memoryPriorityLow.
  rewrite (try_fits (snd (try mm n priority)) w false);
    [|destruct H' as [[? ?] ? ? ? ? ? ?]; try lia; rewrite ?Hr; auto ..].
  rewrite Hb, Hr.
  rewrite (try_fits mm w false);
    [|destruct H as [[? ?] ? ? ? ? ? ?]; try lia; auto ..].
  rewrite (try_fits mm n priority);
    [|destruct H as [[? ?] ? ? ? ? ? ?]; try lia; auto ..].
  open_accounted H. destruct Hn as [Hn0 Hn1]. destruct Hw as [Hw0 Hw1].
  assert (Hle : (if priority then n <=? available mm
                 else n + priorityReserve mm <=? available mm) = true ->
                n <= available mm).
  { destruct priority; intros E; apply Z.leb_le in E; lia. }
  destruct (Z.leb_spec (w + priorityReserve mm) (available mm)); [discriminate|].
  destruct (Z.eqb_spec (available mm) (base mm)) as [Eb|Nb]; cbn [andb].
  - destruct (Z.leb_spec (available mm) w); [discriminate|]. intros _.
    destruct (if priority then _ else _); cbn [fst snd available set_available set_underflow].
    + specialize (Hle eq_refl). intros _.
      replace (w + priorityReserve mm <=? available mm - n) with false
        by (symmetry; apply Z.leb_gt; lia).
      destruct (Z.eqb_spec (available mm - n) (base mm)); cbn [andb]; [|reflexivity].
      replace (available mm - n <=? w) with false by (symmetry; apply Z.leb_gt; lia).
      reflexivity.
    + destruct (Z.leb_spec (available mm) n); cbn [fst snd available set_available set_underflow];
        [|discriminate].
      intros _.
      replace (w + priorityReserve mm <=? 0) with false by (symmetry; apply Z.leb_gt; lia).
      destruct (Z.eqb_spec 0 (base mm)); cbn [andb]; [lia | reflexivity].
  - intros _.
    destruct (if priority then _ else _); cbn [fst snd available set_available set_underflow];
      [|discriminate].
    specialize (Hle eq_refl). intros _.
    replace (w + priorityReserve mm <=? available mm - n) with false
      by (symmetry; apply Z.leb_gt; lia).
    destruct (Z.eqb_spec (available mm - n) (base mm)); cbn [andb]; [lia | reflexivity].
Qed.

Lemma normalHeadWaits_reads (mm mm' : memoryManager) :
  available mm' = available mm -> base mm' = base mm ->
  priorityReserve mm' = priorityReserve mm -> fifo mm' = fifo mm ->
  normalHeadWaits mm -> normalHeadWaits mm'.
Proof.
  intros Ha Hb Hr Hq. unfold normalHeadWaits. rewrite Hq.
  destruct (fifo mm) as [|w q]; [auto|].
  rewrite (try_reads mm mm') by assumption. auto.
Qed.

Lemma settled_release (mm : memoryManager) : settled (fst (release mm)).
Proof.
  unfold settled, release.
  destruct (releasePriority_released (priorityFifo mm) mm eq_refl)
    as (np & [_ Hfl] & Hp & _).
  destruct (releasePriority (priorityFifo mm) mm) as [[fl mm1] evsP]. cbn in *.
  destruct fl.
  - destruct (releaseNormal_released (fifo mm1) mm1 eq_refl)
      as (nn & [_ Hfl'] & Hn & _).
    destruct (releaseNormal (fifo mm1) mm1) as [[fl' mm2] evsN]. cbn in *.
    intros _. unfold normalHeadWaits. rewrite Hn.
    destruct fl'.
    + rewrite Hfl'. exact I.
    + destruct Hfl' as (w & rest & -> & Hw). exact Hw.
  - destruct Hfl as (w & rest & E & _). intros Hq. cbn in Hq. rewrite Hp, E in Hq. discriminate.
Qed.

Lemma settled_Request (mm : memoryManager) (amt : Z) (priority : bool) (newDone : chan) :
  accounted mm -> fits (priorityReserve mm) amt -> settled mm ->
  settled (snd (Request mm amt priority newDone)).
Proof.
  intros H Hf Hs.
  destruct (Request_cases mm amt priority newDone) as (Hiff & Hg & Hb).
  cbv zeta in *.
  destruct (fst (Request mm amt priority newDone)) eqn:E.
  - destruct (proj1 Hiff eq_refl) as (Hp & Hor & Ht).
    destruct (Hg eq_refl) as (-> & _).
    pose proof (try_frame mm amt priority) as Hfr. cbv zeta in Hfr.
    destruct Hfr as (_ & _ & _ & Hq & _).
    intros _. specialize (Hs Hp). unfold normalHeadWaits in *. rewrite Hq.
    destruct (fifo mm) as [|h t] eqn:Eq; [exact I|].
    apply refused_after_grant; try assumption.
    open_accounted H. rewrite Eq in Hq0. now inversion Hq0.
  - destruct Hb as (_ & ->); [discriminate|].
    destruct priority.
    + intros Hp. cbn in Hp. destruct (priorityFifo mm); discriminate.
    + intros Hp. cbn in Hp. specialize (Hs Hp).
      unfold normalHeadWaits in *. cbn [fifo set_fifo].
      destruct (fifo mm) as [|h t] eqn:Eq; cbn [app].
      * cbn [amount]. rewrite (try_reads mm) by reflexivity.
        destruct (fst (try mm amt memoryPriorityLow)) eqn:Et; [|reflexivity].
        unfold memoryPriorityLow in Et.
        assert (Hgr : Blocked w = Granted) by (apply Hiff; auto).
        discriminate Hgr.
      * rewrite (try_reads mm) by reflexivity. exact Hs.
Qed.

Lemma settled_Return (defaultMemory : Z) (mm : memoryManager) (amt : Z) :
  settled mm -> settled (fst (Return defaultMemory mm amt)).
Proof.
  intros Hs. rewrite Return_blocks.
  destruct (countReturned_frame defaultMemory mm amt) as (Hf & _).
  pose proof (clearUnderflow_frame (fst (countReturned defaultMemory mm amt)) amt) as Hu.
  destruct (clearUnderflow (fst (countReturned defaultMemory mm amt)) amt) as [m|m a];
    cbn [fst snd]; [|apply settled_release].
  assert (Hm : m = set_underflow (underflow m)
                     (set_memSinceGC
                        (memSinceGC (fst (countReturned defaultMemory mm amt))) mm)).
  { rewrite Hu at 1. rewrite Hf at 1. reflexivity. }
  intros Hp. rewrite Hm in Hp |- *. cbn in Hp.
  apply (normalHeadWaits_reads mm); auto.
Qed.

(** Both invariants hold after every sequence of calls in which no request
    makes [amount + priorityReserve] wrap. *)
Lemma settled_run (defaultMemory : Z) (cs : list call) :
  forall mm, accounted mm -> settled mm ->
  Forall (callFits (priorityReserve mm)) cs ->
  settled (run defaultMemory cs mm).
Proof.
  induction cs as [|c cs IH]; intros mm H Hs Hcs; cbn; [exact Hs|].
  inversion Hcs as [|c' cs' Hc Hrest]; subst.
  destruct c as [amt priority newDone|amt]; cbn in *; apply IH.
  - apply accounted_Request; assumption.
  - apply settled_Request; assumption.
  - rewrite Request_reserve. exact Hrest.
  - apply accounted_Return; assumption.
  - apply settled_Return; assumption.
  - rewrite Return_reserve. exact Hrest.
Qed.

Lemma Request_base (mm : memoryManager) (amt : Z) (priority : bool) (newDone : chan) :
  base (snd (Request mm amt priority newDone)) = base mm.
Proof.
  destruct (Request_cases mm amt priority newDone) as (_ & Hg & Hb).
  cbv zeta in *.
  destruct (fst (Request mm amt priority newDone)) eqn:E.
  - destruct (Hg eq_refl) as (-> & _). apply try_frame.
  - destruct Hb as (_ & ->); [discriminate|]. destruct priority; reflexivity.
Qed.

Lemma Return_base (defaultMemory : Z) (mm : memoryManager) (amt : Z) :
  base (fst (Return defaultMemory mm amt)) = base mm.
Proof.
  rewrite Return_blocks.
  destruct (countReturned_frame defaultMemory mm amt) as (Hf & _).
  pose proof (clearUnderflow_frame (fst (countReturned defaultMemory mm amt)) amt) as Hu.
  destruct (clearUnderflow (fst (countReturned defaultMemory mm amt)) amt) as [m|m a];
    cbn [fst snd].
  - rewrite Hu. cbn. rewrite Hf. reflexivity.
  - destruct (release_frame (fst (addAvailable m a))) as (Hb & _).
    destruct (addAvailable_frame m a) as (Ha & _).
    rewrite Hb, Ha. cbn. rewrite Hu. cbn. rewrite Hf. reflexivity.
Qed.

Lemma run_base (defaultMemory : Z) (cs : list call) :
  forall mm, base (run defaultMemory cs mm) = base mm.
Proof.
  induction cs as [|c cs IH]; intros mm; cbn; [reflexivity|].
  unfold run in IH. rewrite IH.
  destruct c; cbn; [apply Request_base | apply Return_base].
Qed.

Lemma run_reserve (defaultMemory : Z) (cs : list call) :
  forall mm, priorityReserve (run defaultMemory cs mm) = priorityReserve mm.
Proof.
  induction cs as [|c cs IH]; intros mm; cbn; [reflexivity|].
  unfold run in IH. rewrite IH.
  destruct c; cbn; [apply Request_reserve | apply Return_reserve].
Qed.

(** The round trip in every state that a manager with a non-empty pool
    reaches through calls that do not wrap: a [Request] that returns true
    at once, followed by [Return] of the same amount, restores every field
    but [memSinceGC] and releases no waiter. *)
Theorem round_trip_reachable
  (defaultMemory baseMemory priorityMemory : Z) (stopChan : chan)
  (cs : list call) (n : Z) (priority : bool) (newDone : chan) (mm1 : memoryManager) :
  U64.ok baseMemory -> 0 < baseMemory -> 0 <= priorityMemory ->
  Forall (callFits priorityMemory) cs -> fits priorityMemory n ->
  let mm := run defaultMemory cs (newMemoryManager baseMemory priorityMemory stopChan) in
  Request mm n priority newDone = (Granted, mm1) ->
  sameButGC (fst (Return defaultMemory mm1 n)) mm
  /\ closed (snd (Return defaultMemory mm1 n)) = [].
Proof.
  intros Hb Hb0 Hr Hcs Hn mm Hreq.
  set (mm0 := newMemoryManager baseMemory priorityMemory stopChan) in *.
  assert (H0 : accounted mm0) by (apply accounted_new; assumption).
  assert (H : accounted mm) by (apply accounted_run; assumption).
  assert (Hs : settled mm).
  { apply settled_run; try assumption. intros _. exact I. }
  assert (Ebase : base mm = baseMemory) by (unfold mm; rewrite run_base; reflexivity).
  assert (Eres : priorityReserve mm = priorityMemory)
    by (unfold mm; rewrite run_reserve; reflexivity).
  clearbody mm. clear H0 mm0 Hcs.
  destruct (Request_granted _ _ _ _ _ Hreq) as (Hp & _ & Ht).
  pose proof H as H'. open_accounted H'. destruct Hu as [Hu0 Hu1].
  destruct Hn as [Hn0 Hn1].
  destruct (Z.eq_dec (underflow mm) 0) as [Ez|Enz].
  - apply (round_trip_quiet defaultMemory mm mm1 n priority newDone);
      try assumption; try lia; auto.
    unfold U64.ok. lia.
  - assert (Hpos : 0 < underflow mm) by lia.
    specialize (Hd Hpos).
    rewrite try_fits in Ht by (try assumption; try lia; rewrite Eres; split; lia).
    rewrite Hd, Ebase in Ht.
    replace (0 =? baseMemory) with false in Ht by (symmetry; apply Z.eqb_neq; lia).
    cbn [andb] in Ht.
    destruct (if priority then n <=? 0 else n + priorityReserve mm <=? 0) eqn:Eg;
      [|discriminate].
    assert (En : n = 0) by (destruct priority; apply Z.leb_le in Eg; lia).
    subst n. inversion Ht; subst mm1. clear Ht.
    change (0 - 0) with 0.
    assert (Em : set_available 0 mm = mm) by (rewrite <- Hd; apply set_available_same).
    rewrite Em.
    rewrite Return_blocks.
    destruct (countReturned_frame defaultMemory mm 0) as (Hf & Hc & _).
    assert (Eu : underflow (fst (countReturned defaultMemory mm 0)) = underflow mm)
      by (rewrite Hf; reflexivity).
    unfold clearUnderflow. rewrite Eu.
    replace (0 <? underflow mm) with true by (symmetry; apply Z.ltb_lt; lia).
    replace (0 <=? underflow mm) with true by (symmetry; apply Z.leb_le; lia).
    cbn [andb fst snd]. split; [|exact Hc].
    rewrite sub_small by lia.
    rewrite Hf. rewrite Z.sub_0_r. unfold sameButGC. destruct mm; reflexivity.
Qed.

(** ** The scenarios of the design document *)

(** Base 10, reserve 3: a normal 7 is granted, a normal 1 waits, a priority
    1 is granted, and returning 7 releases the waiter; 8 bytes remain. *)
Example scenario_reserve :
  let mm := run (2 ^ 28)
              [CallRequest 7 false 1%nat; CallRequest 1 false 2%nat;
               CallRequest 1 true 3%nat; CallReturn 7]
              (newMemoryManager 10 3 0%nat) in
  available mm = 8 /\ fifo mm = [] /\ priorityFifo mm = [].
Proof. vm_compute. repeat split. Qed.

(** Base 10, no reserve: a normal 25 borrows with underflow 15, a normal 1
    waits; returning 10 pays the underflow down to 5 and releases nobody;
    returning 10 more clears it, leaves 5 and releases the waiter. *)
Example scenario_borrow :
  let mm1 := run (2 ^ 28) [CallRequest 25 false 1%nat; CallRequest 1 false 2%nat]
               (newMemoryManager 10 0 0%nat) in
  let r2 := Return (2 ^ 28) mm1 10 in
  let r3 := Return (2 ^ 28) (fst r2) 10 in
  (available mm1 = 0 /\ underflow mm1 = 15 /\ map amount (fifo mm1) = [1])
  /\ (available (fst r2) = 0 /\ underflow (fst r2) = 5 /\ closed (snd r2) = [])
  /\ (available (fst r3) = 4 /\ underflow (fst r3) = 0 /\ closed (snd r3) = [2%nat]).
Proof. vm_compute. repeat split. Qed.

(** Base 10, reserve 5: a normal 6 waits, a priority 6 is granted, and
    returning 6 leaves the normal waiter queued on the idle pool. *)
Example scenario_reserve_blocks :
  let mm := run (2 ^ 28)
              [CallRequest 6 false 1%nat; CallRequest 6 true 2%nat; CallReturn 6]
              (newMemoryManager 10 5 0%nat) in
  available mm = 10 /\ map amount (fifo mm) = [6].
Proof. vm_compute. repeat split. Qed.

(** Two priority waiters of 3 and a normal waiter of 3 on an exhausted
    pool: returning 6 releases the two priority waiters, in order, and
    leaves the normal one queued. *)
Example scenario_priority_drain :
  let mm := mkManager 0 10 0 0 0 [mkRequest 3 3%nat]
                      [mkRequest 3 1%nat; mkRequest 3 2%nat] 0%nat in
  let r := Return (2 ^ 28) mm 6 in
  closed (snd r) = [1%nat; 2%nat] /\ priorityFifo (fst r) = []
  /\ map done (fifo (fst r)) = [3%nat] /\ available (fst r) = 0.
Proof. vm_compute. repeat split. Qed.

(** ** Witnesses and counterexamples *)

(** C4 (the code departs from the claim).  On
    [newMemoryManager(0, 0, stop)] the call [Request(5, false)] is granted
    with [underflow = 5].  From that state [Request(7, false)] returns true
    at once, a second borrow while the first is outstanding, and the
    [Return(7)] that follows leaves [underflow = 0], not 5. *)
Lemma round_trip_loses_underflow :
  let mm := snd (Request (newMemoryManager 0 0 0%nat) 5 false 1%nat) in
  let r := Request mm 7 false 2%nat in
  fst r = Granted
  /\ underflow mm = 5
  /\ underflow (fst (Return (2 ^ 28) (snd r) 7)) = 0
  /\ ~ sameButGC (fst (Return (2 ^ 28) (snd r) 7)) mm.
Proof. vm_compute. repeat split. discriminate. Qed.

Lemma Return_pays_underflow_witness :
  let mm := mkManager 0 10 0 0 15 [mkRequest 1 2%nat] [] 0%nat in
  let r := Return (2 ^ 28) mm 10 in
  underflow (fst r) = 15 - 10
  /\ available (fst r) = 0
  /\ fifo (fst r) = [mkRequest 1 2%nat] /\ priorityFifo (fst r) = []
  /\ closed (snd r) = [].
Proof.
  cbv zeta.
  destruct (Return_pays_underflow (2 ^ 28)
              (mkManager 0 10 0 0 15 [mkRequest 1 2%nat] [] 0%nat) 10)
    as (_ & _ & Hu & Ha & Hq & Hp & Hc & _).
  - split; [discriminate | reflexivity].
  - reflexivity.
  - reflexivity.
  - discriminate.
  - repeat split; assumption.
Defined.

Lemma Return_clamps_and_reports_witness :
  let mm := mkManager 8 10 0 0 0 [mkRequest 4 7%nat] [] 0%nat in
  Return (2 ^ 28) mm 5 =
  (mkManager 6 10 5 0 0 [] [] 0%nat, [EvCritical tooMuchReturned; EvClose 7%nat]).
Proof.
  cbv zeta.
  destruct (Return_clamps_and_reports (2 ^ 28)
              (mkManager 8 10 0 0 0 [mkRequest 4 7%nat] [] 0%nat)
              (mkManager 8 10 5 0 0 [mkRequest 4 7%nat] [] 0%nat) 5 5)
    as [_ H].
  - reflexivity.
  - reflexivity.
  - rewrite H. reflexivity.
Defined.

(** * Further properties *)

Ltac acc_fields H :=
  destruct H as [[?A0 ?A1] ?AB [?AU0 ?AU1] ?AD ?AR ?AF ?AP].

(** ** The ledger *)

Lemma sumAmounts_app (a b : list memoryRequest) :
  sumAmounts (a ++ b) = sumAmounts a + sumAmounts b.
Proof.
  unfold sumAmounts. induction a as [|r a IH]; cbn; [reflexivity|].
  rewrite IH. ring.
Qed.

(** A grant takes exactly [amount] out of the uncommitted bytes, by either
    branch of [try]. *)
Lemma try_uncommitted (mm : memoryManager) (amt : Z) (priority : bool) :
  accounted mm -> 0 < base mm -> fits (priorityReserve mm) amt ->
  fst (try mm amt priority) = true ->
  uncommitted (snd (try mm amt priority)) = uncommitted mm - amt.
Proof.
  intros H Hb0 Hf. acc_fields H.
  rewrite try_fits by (try assumption; lia).
  unfold uncommitted.
  destruct (if priority then _ else _); cbn [fst snd]; [intros _; cbn; ring|].
  destruct (Z.eqb_spec (available mm) (base mm)) as [E|]; cbn [andb fst snd];
    [|discriminate].
  destruct (Z.leb_spec (available mm) amt); cbn [fst snd]; [|discriminate].
  intros _. cbn.
  assert (underflow mm = 0).
  { destruct (Z.eq_dec (underflow mm) 0) as [|N]; [assumption|].
    assert (Hpos : 0 < underflow mm) by lia. specialize (AD Hpos). lia. }
  lia.
Qed.

Lemma accounted_tail_priority (mm : memoryManager) (r : memoryRequest) (q : list memoryRequest) :
  accounted mm -> priorityFifo mm = r :: q -> accounted (set_priorityFifo q mm).
Proof.
  intros H E. acc_fields H. constructor; cbn; auto; [split; assumption|].
  rewrite E in AP. now inversion AP.
Qed.

Lemma accounted_tail_normal (mm : memoryManager) (r : memoryRequest) (q : list memoryRequest) :
  accounted mm -> fifo mm = r :: q -> accounted (set_fifo q mm).
Proof.
  intros H E. acc_fields H. constructor; cbn; auto; [split; assumption|].
  rewrite E in AF. now inversion AF.
Qed.

Lemma releasePriority_ledger (q : list memoryRequest) :
  forall mm, accounted mm -> 0 < base mm -> priorityFifo mm = q ->
  let mm' := snd (fst (releasePriority q mm)) in
  uncommitted mm' - sumAmounts (priorityFifo mm') = uncommitted mm - sumAmounts q
  /\ fifo mm' = fifo mm /\ base mm' = base mm.
Proof.
  induction q as [|r q IH]; intros mm H Hb0 Hq; cbn [releasePriority].
  - cbn. rewrite Hq. auto.
  - assert (Hfit : fits (priorityReserve mm) (amount r)).
    { acc_fields H. rewrite Hq in AP. now inversion AP. }
    pose proof (accounted_try mm (amount r) memoryPriorityHigh H Hfit) as H1.
    pose proof (try_uncommitted mm (amount r) memoryPriorityHigh H Hb0 Hfit) as Hl.
    pose proof (try_frame mm (amount r) memoryPriorityHigh) as Hf. cbv zeta in Hf.
    pose proof (try_refused mm (amount r) memoryPriorityHigh) as Hr.
    destruct (try mm (amount r) memoryPriorityHigh) as [[|] mm1]; cbn in *.
    + destruct Hf as (Hb & _ & _ & Hn & Hp & _).
      assert (H2 : accounted (set_priorityFifo q mm1)).
      { apply (accounted_tail_priority mm1 r q H1). congruence. }
      specialize (IH (set_priorityFifo q mm1) H2).
      destruct (releasePriority q (set_priorityFifo q mm1)) as [[fl mm2] evs].
      cbn in *. destruct IH as (I1 & I2 & I3); [lia | reflexivity |].
      unfold uncommitted in *. cbn in *. unfold sumAmounts in *. cbn.
      specialize (Hl eq_refl). repeat split; try congruence. lia.
    + rewrite (Hr eq_refl). rewrite Hq. auto.
Qed.

Lemma releaseNormal_ledger (q : list memoryRequest) :
  forall mm, accounted mm -> 0 < base mm -> fifo mm = q ->
  let mm' := snd (fst (releaseNormal q mm)) in
  uncommitted mm' - sumAmounts (fifo mm') = uncommitted mm - sumAmounts q
  /\ priorityFifo mm' = priorityFifo mm /\ base mm' = base mm.
Proof.
  induction q as [|r q IH]; intros mm H Hb0 Hq; cbn [releaseNormal].
  - cbn. rewrite Hq. auto.
  - assert (Hfit : fits (priorityReserve mm) (amount r)).
    { acc_fields H. rewrite Hq in AF. now inversion AF. }
    pose proof (accounted_try mm (amount r) memoryPriorityLow H Hfit) as H1.
    pose proof (try_uncommitted mm (amount r) memoryPriorityLow H Hb0 Hfit) as Hl.
    pose proof (try_frame mm (amount r) memoryPriorityLow) as Hf. cbv zeta in Hf.
    pose proof (try_refused mm (amount r) memoryPriorityLow) as Hr.
    destruct (try mm (amount r) memoryPriorityLow) as [[|] mm1]; cbn in *.
    + destruct Hf as (Hb & _ & _ & Hn & Hp & _).
      assert (H2 : accounted (set_fifo q mm1)).
      { apply (accounted_tail_normal mm1 r q H1). congruence. }
      specialize (IH (set_fifo q mm1) H2).
      destruct (releaseNormal q (set_fifo q mm1)) as [[fl mm2] evs].
      cbn in *. destruct IH as (I1 & I2 & I3); [lia | reflexivity |].
      unfold uncommitted in *. cbn in *. unfold sumAmounts in *. cbn.
      specialize (Hl eq_refl). repeat split; try congruence. lia.
    + rewrite (Hr eq_refl). rewrite Hq. auto.
Qed.

(** The release loops move bytes from the uncommitted pool to the waiters
    they release, and nothing else. *)
Lemma release_ledger (mm : memoryManager) :
  accounted mm -> 0 < base mm ->
  uncommitted (fst (release mm)) - demand (fst (release mm)) = uncommitted mm - demand mm.
Proof.
  intros H Hb0. unfold release, demand.
  pose proof (releasePriority_ledger (priorityFifo mm) mm H Hb0 eq_refl) as H1.
  pose proof (accounted_releasePriority (priorityFifo mm) mm H eq_refl) as A1.
  cbv zeta in H1.
  destruct (releasePriority (priorityFifo mm) mm) as [[fl mm1] evsP]. cbn in *.
  destruct H1 as (L1 & Q1 & B1).
  destruct fl; cbn; [|rewrite Q1; lia].
  pose proof (releaseNormal_ledger (fifo mm1) mm1 A1) as H2. cbv zeta in H2.
  destruct (releaseNormal (fifo mm1) mm1) as [[fl' mm2] evsN]. cbn in *.
  destruct H2 as (L2 & Q2 & B2); [lia | reflexivity |].
  rewrite Q2. rewrite Q1 in L2. lia.
Qed.

Lemma demand_enqueue_normal (mm : memoryManager) (w : memoryRequest) :
  demand (set_fifo (fifo mm ++ [w]) mm) = demand mm + amount w.
Proof.
  unfold demand. cbn [fifo priorityFifo set_fifo set_priorityFifo].
  rewrite sumAmounts_app. unfold sumAmounts. cbn. ring.
Qed.

Lemma demand_enqueue_priority (mm : memoryManager) (w : memoryRequest) :
  demand (set_priorityFifo (priorityFifo mm ++ [w]) mm) = demand mm + amount w.
Proof.
  unfold demand. cbn [fifo priorityFifo set_fifo set_priorityFifo].
  rewrite sumAmounts_app. unfold sumAmounts. cbn. ring.
Qed.

(** Every request takes exactly its amount: out of the uncommitted bytes
    when it is granted at once, by either branch of [try], and into the
    waiting demand, with [available] and [underflow] as they were, when it
    blocks. *)
Theorem Request_takes_its_amount
  (mm : memoryManager) (amt : Z) (priority : bool) (newDone : chan) :
  accounted mm -> 0 < base mm -> fits (priorityReserve mm) amt ->
  let r := Request mm amt priority newDone in
  (fst r = Granted ->
   uncommitted (snd r) = uncommitted mm - amt /\ demand (snd r) = demand mm)
  /\ (fst r <> Granted ->
      available (snd r) = available mm /\ underflow (snd r) = underflow mm
      /\ demand (snd r) = demand mm + amt).
Proof.
  intros H Hb0 Hf. cbv zeta.
  destruct (Request_cases mm amt priority newDone) as (Hiff & Hg & Hb).
  cbv zeta in *. split.
  - intros Eg. destruct (Hg Eg) as (-> & Hq & Hp).
    split.
    + apply try_uncommitted; try assumption. apply Hiff, Eg.
    + pose proof (try_frame mm amt priority) as Hfr. cbv zeta in Hfr.
      destruct Hfr as (_ & _ & _ & Eq & Ep & _).
      unfold demand. rewrite Eq, Ep. reflexivity.
  - intros En. destruct (Hb En) as (_ & ->).
    destruct priority.
    + rewrite demand_enqueue_priority. repeat split; reflexivity.
    + rewrite demand_enqueue_normal. repeat split; reflexivity.
Qed.

Lemma accounted_gc (v : Z) (mm : memoryManager) :
  accounted mm -> accounted (set_memSinceGC v mm).
Proof. intros H. acc_fields H. constructor; cbn; auto; split; assumption. Qed.

(** After the underflow block has fallen through there is no underflow,
    and adding to [available] keeps the invariant whatever the amount. *)
Lemma accounted_addAvailable (m : memoryManager) (a : Z) :
  accounted m -> underflow m = 0 -> accounted (fst (addAvailable m a)).
Proof.
  intros H Hz. acc_fields H. unfold addAvailable. cbn.
  pose proof (add_ok (available m) a) as [Hs0 Hs1].
  destruct (Z.ltb_spec (base m) (U64.add (available m) a));
    constructor; cbn; auto; try lia; unfold U64.ok; lia.
Qed.

Lemma release_no_report (mm : memoryManager) :
  filter isCritical (snd (release mm)) = [].
Proof.
  destruct (release_order mm) as (np & nn & He & _). rewrite He.
  rewrite <- map_app.
  induction (firstn np (priorityFifo mm) ++ firstn nn (fifo mm)); cbn; auto.
Qed.

Lemma wrap_le (z : Z) : 0 <= z -> U64.wrap z <= z.
Proof. intros H. unfold U64.wrap. apply Z.mod_le; [exact H | exact modulus_pos]. Qed.

(** What [Return] does to the ledger, block by block: at most [amt] bytes
    become uncommitted, and exactly [amt] when the caller returns no more
    than is held. *)
Lemma Return_ledger (defaultMemory : Z) (mm : memoryManager) (amt : Z) :
  accounted mm -> 0 < base mm -> U64.ok amt ->
  let r := Return defaultMemory mm amt in
  uncommitted (fst r) - demand (fst r) <= uncommitted mm - demand mm + amt
  /\ (uncommitted mm + amt <= base mm ->
      uncommitted (fst r) - demand (fst r) = uncommitted mm - demand mm + amt
      /\ filter isCritical (snd r) = []).
Proof.
  intros H Hb0 [Ha0 Ha1]. cbv zeta. rewrite Return_blocks.
  destruct (countReturned_frame defaultMemory mm amt) as (Hf & _).
  assert (Hcr : filter isCritical (snd (countReturned defaultMemory mm amt)) = []).
  { rewrite countReturned_spec. cbv zeta.
    destruct (defaultMemory <? U64.add (memSinceGC mm) amt); reflexivity. }
  set (v := memSinceGC (fst (countReturned defaultMemory mm amt))) in Hf.
  clearbody v. rewrite Hf. clear Hf.
  set (ev1 := snd (countReturned defaultMemory mm amt)) in *. clearbody ev1.
  assert (H1 : accounted (set_memSinceGC v mm)) by (apply accounted_gc, H).
  set (mm1 := set_memSinceGC v mm) in *.
  assert (Eu : uncommitted mm1 = uncommitted mm) by reflexivity.
  assert (Ed : demand mm1 = demand mm) by reflexivity.
  assert (Eb : base mm1 = base mm) by reflexivity.
  rewrite <- Eu, <- Ed, <- Eb. clear Eu Ed. rewrite <- Eb in Hb0. clear Eb.
  clearbody mm1. clear H mm v.
  pose proof H1 as H. acc_fields H.
  unfold clearUnderflow.
  destruct (Z.ltb_spec 0 (underflow mm1)) as [Hpos|Hzero]; cbn [andb].
  - specialize (AD Hpos).
    destruct (Z.leb_spec amt (underflow mm1)) as [Hle|Hgt]; cbn [fst snd].
    + rewrite sub_small by lia. unfold uncommitted, demand, sumAmounts. cbn.
      split; [lia|]. intros _. split; [lia | exact Hcr].
    + replace (underflow mm1 <? amt) with true by (symmetry; apply Z.ltb_lt; lia).
      cbn [andb fst snd].
      set (m := set_underflow 0 mm1).
      assert (Hm : accounted m).
      { subst m. constructor; cbn; auto; try lia; unfold U64.ok; lia. }
      pose proof (accounted_addAvailable m (U64.sub amt (underflow mm1)) Hm eq_refl) as H2.
      rewrite release_ledger by (try assumption;
        destruct (addAvailable_frame m (U64.sub amt (underflow mm1))) as (-> & _);
        exact Hb0).
      rewrite !filter_app, Hcr, release_no_report.
      unfold addAvailable, uncommitted, demand, sumAmounts in *. cbn in *.
      rewrite sub_small by lia. rewrite AD. rewrite add_0_l by (unfold U64.ok; lia).
      destruct (Z.ltb_spec (base mm1) (amt - underflow mm1)); cbn; split;
        try lia; intros Hn; split; try lia; reflexivity.
  - assert (Hz : underflow mm1 = 0) by lia. cbn [andb fst snd].
    pose proof (accounted_addAvailable mm1 amt H1 Hz) as H2.
    rewrite release_ledger by (try assumption;
      destruct (addAvailable_frame mm1 amt) as (-> & _); exact Hb0).
    rewrite !filter_app, Hcr, release_no_report.
    pose proof (wrap_le (available mm1 + amt)) as Hw.
    unfold addAvailable, uncommitted, demand, sumAmounts in *. cbn in *.
    unfold U64.add.
    destruct (Z.ltb_spec (base mm1) (U64.wrap (available mm1 + amt))); cbn; split;
      try lia; intros Hn; rewrite wrap_small in * by (unfold U64.ok; lia);
      split; try lia; reflexivity.
Qed.

(** A [Return] of no more than is held hands back exactly [amt] bytes:
    they become uncommitted, less the amounts of the waiters that leave the
    fifos, and nothing is reported. *)
Theorem Return_hands_back_its_amount (defaultMemory : Z) (mm : memoryManager) (amt : Z) :
  accounted mm -> 0 < base mm -> U64.ok amt ->
  uncommitted mm + amt <= base mm ->
  let r := Return defaultMemory mm amt in
  uncommitted (fst r) = uncommitted mm + amt - (demand mm - demand (fst r))
  /\ filter isCritical (snd r) = [].
Proof.
  intros H Hb0 Ha Hle. cbv zeta.
  destruct (Return_ledger defaultMemory mm amt H Hb0 Ha) as (_ & Heq).
  destruct (Heq Hle) as (E & Hc). split; [lia | exact Hc].
Qed.

Lemma run_ledger (defaultMemory : Z) (cs : list call) :
  forall mm, accounted mm -> 0 < base mm ->
  Forall (callFits (priorityReserve mm)) cs ->
  uncommitted (run defaultMemory cs mm) - demand (run defaultMemory cs mm)
  <= uncommitted mm - demand mm - requested cs + returned cs.
Proof.
  induction cs as [|c cs IH]; intros mm H Hb0 Hcs; cbn [requested returned fold_right].
  - cbn. lia.
  - inversion Hcs as [|c' cs' Hc Hrest]; subst.
    change (run defaultMemory (c :: cs) mm)
      with (run defaultMemory cs (step defaultMemory mm c)).
    destruct c as [amt priority newDone|amt]; cbn [step] in *.
    + pose proof (accounted_Request mm amt priority newDone H Hc) as H'.
      specialize (IH (snd (Request mm amt priority newDone)) H').
      rewrite Request_base, Request_reserve in IH. specialize (IH Hb0 Hrest).
      destruct (Request_cases mm amt priority newDone) as (Hiff & Hg & Hb).
      cbv zeta in *.
      assert (E : uncommitted (snd (Request mm amt priority newDone))
                  - demand (snd (Request mm amt priority newDone))
                  = uncommitted mm - demand mm - amt).
      { destruct (fst (Request mm amt priority newDone)) eqn:Eg.
        - destruct (Hg eq_refl) as (Es & Hq & Hp).
          pose proof (try_uncommitted mm amt priority H Hb0 Hc) as Hu.
          rewrite <- Es in Hu. rewrite Hu by (apply Hiff; reflexivity).
          unfold demand. rewrite Hq, Hp. lia.
        - destruct Hb as (_ & ->); [discriminate|].
          destruct priority.
          + rewrite demand_enqueue_priority. cbn. unfold uncommitted; cbn. lia.
          + rewrite demand_enqueue_normal. cbn. unfold uncommitted; cbn. lia. }
      fold (requested cs) (returned cs). lia.
    + pose proof (accounted_Return defaultMemory mm amt H Hc) as H'.
      specialize (IH (fst (Return defaultMemory mm amt)) H').
      rewrite Return_base, Return_reserve in IH. specialize (IH Hb0 Hrest).
      destruct (Return_ledger defaultMemory mm amt H Hb0 Hc) as (Hle & _).
      fold (requested cs) (returned cs). lia.
Qed.

(** The manager never shows more free memory than the calls account for:
    after any sequence of calls that do not wrap, the uncommitted bytes
    plus the bytes granted and not returned are at most [base]. *)
Theorem run_never_overcommits
  (defaultMemory baseMemory priorityMemory : Z) (stopChan : chan) (cs : list call) :
  U64.ok baseMemory -> 0 < baseMemory -> 0 <= priorityMemory ->
  Forall (callFits priorityMemory) cs ->
  let mm := run defaultMemory cs (newMemoryManager baseMemory priorityMemory stopChan) in
  uncommitted mm + (requested cs - demand mm - returned cs) <= baseMemory.
Proof.
  intros Hb Hb0 Hr Hcs. cbv zeta.
  pose proof (run_ledger defaultMemory cs
                (newMemoryManager baseMemory priorityMemory stopChan)
                (accounted_new _ _ stopChan Hb Hr) Hb0 Hcs) as H.
  unfold uncommitted, demand, sumAmounts in *. cbn in H. lia.
Qed.

(** ** Nobody waits needlessly *)

Lemma stalled_release (mm : memoryManager) : stalled (fst (release mm)).
Proof.
  unfold stalled, release.
  destruct (releasePriority_released (priorityFifo mm) mm eq_refl)
    as (np & [_ Hfl] & Hp & _).
  destruct (releasePriority (priorityFifo mm) mm) as [[fl mm1] evsP]. cbn in *.
  destruct fl.
  - destruct (releaseNormal_released (fifo mm1) mm1 eq_refl)
      as (nn & [_ Hfl'] & Hn & Hp').
    destruct (releaseNormal (fifo mm1) mm1) as [[fl' mm2] evsN]. cbn in *.
    rewrite Hp', Hp, Hfl. unfold normalHeadWaits. rewrite Hn.
    destruct fl'.
    + rewrite Hfl'. exact I.
    + destruct Hfl' as (w & rest & -> & Hw). exact Hw.
  - destruct Hfl as (w & rest & E & Hw). cbn [fst]. rewrite Hp, E. exact Hw.
Qed.

Lemma stalled_reads (mm mm' : memoryManager) :
  available mm' = available mm -> base mm' = base mm ->
  priorityReserve mm' = priorityReserve mm ->
  fifo mm' = fifo mm -> priorityFifo mm' = priorityFifo mm ->
  stalled mm -> stalled mm'.
Proof.
  intros Ha Hb Hr Hq Hp. unfold stalled. rewrite Hp.
  destruct (priorityFifo mm) as [|w q].
  - apply normalHeadWaits_reads; assumption.
  - rewrite (try_reads mm mm') by assumption. auto.
Qed.

(** Unless it ends in the underflow block, [Return] releases every waiter
    it can: it leaves a state in which the next waiter in line (priority
    first) is one that [try] refuses, or no waiter at all. *)
Theorem Return_releases_all_it_can (defaultMemory : Z) (mm : memoryManager) (amt : Z) :
  (0 <? underflow mm) && (amt <=? underflow mm) = false ->
  stalled (fst (Return defaultMemory mm amt)).
Proof.
  intros Hn. rewrite Return_blocks.
  destruct (countReturned_frame defaultMemory mm amt) as (Hf & _).
  assert (Eu : underflow (fst (countReturned defaultMemory mm amt)) = underflow mm)
    by (rewrite Hf; reflexivity).
  unfold clearUnderflow. rewrite Eu, Hn.
  destruct ((0 <? underflow mm) && (underflow mm <? amt)); cbn [fst snd];
    apply stalled_release.
Qed.

Lemma stalled_Request (mm : memoryManager) (amt : Z) (priority : bool) (newDone : chan) :
  accounted mm -> fits (priorityReserve mm) amt -> stalled mm ->
  stalled (snd (Request mm amt priority newDone)).
Proof.
  intros H Hf Hs.
  destruct (Request_cases mm amt priority newDone) as (Hiff & Hg & Hb).
  cbv zeta in *.
  destruct (fst (Request mm amt priority newDone)) eqn:E.
  - destruct (proj1 Hiff eq_refl) as (Hp & _).
    pose proof (settled_Request mm amt priority newDone H Hf) as Hset.
    unfold settled, stalled in *. rewrite Hp in Hs.
    destruct (Hg eq_refl) as (_ & _ & Hp').
    rewrite Hp', Hp. apply Hset; [intros _; exact Hs|]. rewrite Hp'. exact Hp.
  - destruct Hb as (_ & ->); [discriminate|].
    destruct priority.
    + unfold stalled in *. cbn [priorityFifo set_priorityFifo].
      destruct (priorityFifo mm) as [|h t] eqn:Ep; cbn [app].
      * cbn [amount]. rewrite (try_reads mm) by reflexivity.
        destruct (fst (try mm amt memoryPriorityHigh)) eqn:Et; [|reflexivity].
        unfold memoryPriorityHigh in Et.
        assert (Hgr : Blocked w = Granted) by (apply Hiff; auto).
        discriminate Hgr.
      * rewrite (try_reads mm) by reflexivity. exact Hs.
    + unfold stalled in *. cbn [priorityFifo set_fifo].
      destruct (priorityFifo mm) as [|h t] eqn:Ep.
      * pose proof (settled_Request mm amt false newDone H Hf) as Hset.
        destruct (Request_cases mm amt false newDone) as (_ & _ & Hb').
        cbv zeta in Hb'. rewrite E in Hb'. destruct Hb' as (_ & Es); [discriminate|].
        rewrite Es in Hset. apply Hset; [intros _; exact Hs | exact Ep].
      * rewrite (try_reads mm) by reflexivity. exact Hs.
Qed.

Lemma stalled_Return (defaultMemory : Z) (mm : memoryManager) (amt : Z) :
  stalled mm -> stalled (fst (Return defaultMemory mm amt)).
Proof.
  intros Hs. rewrite Return_blocks.
  destruct (countReturned_frame defaultMemory mm amt) as (Hf & _).
  pose proof (clearUnderflow_frame (fst (countReturned defaultMemory mm amt)) amt) as Hu.
  destruct (clearUnderflow (fst (countReturned defaultMemory mm amt)) amt) as [m|m a];
    cbn [fst snd]; [|apply stalled_release].
  assert (Hm : m = set_underflow (underflow m)
                     (set_memSinceGC
                        (memSinceGC (fst (countReturned defaultMemory mm amt))) mm)).
  { rewrite Hu at 1. rewrite Hf at 1. reflexivity. }
  rewrite Hm. apply (stalled_reads mm); auto.
Qed.

Lemma stalled_run (defaultMemory : Z) (cs : list call) :
  forall mm, accounted mm -> stalled mm ->
  Forall (callFits (priorityReserve mm)) cs ->
  stalled (run defaultMemory cs mm).
Proof.
  induction cs as [|c cs IH]; intros mm H Hs Hcs; cbn; [exact Hs|].
  inversion Hcs as [|c' cs' Hc Hrest]; subst.
  destruct c as [amt priority newDone|amt]; cbn in *; apply IH.
  - apply accounted_Request; assumption.
  - apply stalled_Request; assumption.
  - rewrite Request_reserve. exact Hrest.
  - apply accounted_Return; assumption.
  - apply stalled_Return; assumption.
  - rewrite Return_reserve. exact Hrest.
Qed.

(** Between calls nobody waits needlessly: after any sequence of calls
    that do not wrap, the next waiter in line (the head of the priority
    fifo, or of the normal fifo when no priority waiter is queued) is one
    that [try] refuses. *)
Theorem nobody_waits_needlessly
  (defaultMemory baseMemory priorityMemory : Z) (stopChan : chan) (cs : list call) :
  U64.ok baseMemory -> 0 <= priorityMemory ->
  Forall (callFits priorityMemory) cs ->
  stalled (run defaultMemory cs (newMemoryManager baseMemory priorityMemory stopChan)).
Proof.
  intros Hb Hr Hcs.
  apply stalled_run; [apply accounted_new; assumption | exact I | exact Hcs].
Qed.

(** ** The admission predicate, in words *)

(** For a request whose [amount + priorityReserve] does not wrap, [try]
    decides by the three cases of the design: the grant when the caller's
    share of [available] covers [amount], otherwise the borrow when the pool
    is idle and [amount] is at least the whole pool, otherwise a refusal
    that changes nothing. *)
Theorem try_decides_by_three_cases (mm : memoryManager) (amt : Z) (priority : bool) :
  0 <= available mm < U64.modulus -> 0 <= base mm ->
  0 <= priorityReserve mm -> fits (priorityReserve mm) amt ->
  let covered := (priority = true /\ amt <= available mm)
                 \/ (priority = false /\ amt + priorityReserve mm <= available mm) in
  let idle := available mm = base mm /\ available mm <= amt in
  (covered -> try mm amt priority = (true, set_available (available mm - amt) mm))
  /\ (~ covered -> idle ->
      try mm amt priority =
      (true, set_underflow (amt - base mm) (set_available 0 mm)))
  /\ (~ covered -> ~ idle -> try mm amt priority = (false, mm)).
Proof.
  intros Hav Hb Hr Hf. cbv zeta.
  rewrite try_fits by assumption.
  assert (Hc : (if priority then amt <=? available mm
                else amt + priorityReserve mm <=? available mm) = true <->
               (priority = true /\ amt <= available mm)
               \/ (priority = false /\ amt + priorityReserve mm <= available mm)).
  { destruct priority; rewrite Z.leb_le; intuition discriminate. }
  assert (Hi : (available mm =? base mm) && (available mm <=? amt) = true <->
               available mm = base mm /\ available mm <= amt).
  { rewrite andb_true_iff, Z.eqb_eq, Z.leb_le. tauto. }
  destruct (if priority then _ else _).
  - split; [reflexivity|].
    split; intros Hn; exfalso; apply Hn, Hc; reflexivity.
  - split; [intros Hcov; apply Hc in Hcov; discriminate|].
    destruct ((available mm =? base mm) && (available mm <=? amt)).
    + split; [reflexivity|].
      intros _ Hn. exfalso. apply Hn, Hi. reflexivity.
    + split; [|reflexivity].
      intros _ Hidle. apply Hi in Hidle. discriminate.
Qed.

(** ** The borrow and the reserve *)

(** While a borrow is outstanding every request for a positive amount
    joins its fifo: nothing is granted until the underflow is paid. *)
Theorem borrow_blocks_requests
  (mm : memoryManager) (amt : Z) (priority : bool) (newDone : chan) :
  accounted mm -> 0 < base mm -> 0 < underflow mm ->
  fits (priorityReserve mm) amt -> 0 < amt ->
  let w := {| amount := amt; done := newDone |} in
  Request mm amt priority newDone =
  (Blocked w, if priority
              then set_priorityFifo (priorityFifo mm ++ [w]) mm
              else set_fifo (fifo mm ++ [w]) mm).
Proof.
  intros H Hb0 Hu Hf Hpos. cbv zeta.
  pose proof H as H'. acc_fields H'. specialize (AD Hu).
  assert (Ht : try mm amt priority = (false, mm)).
  { rewrite try_fits by (try assumption; lia).
    destruct Hf as [Hf0 Hf1]. rewrite AD.
    replace (if priority then amt <=? 0 else amt + priorityReserve mm <=? 0) with false
      by (destruct priority; symmetry; apply Z.leb_gt; lia).
    replace (0 =? base mm) with false by (symmetry; apply Z.eqb_neq; lia).
    reflexivity. }
  destruct (Request_cases mm amt priority newDone) as (Hiff & _ & Hb).
  cbv zeta in *.
  assert (Hn : fst (Request mm amt priority newDone) <> Granted).
  { intros Eg. apply Hiff in Eg. destruct Eg as (_ & _ & Eg).
    rewrite Ht in Eg. discriminate. }
  destruct (Hb Hn) as (E1 & E2).
  rewrite (surjective_pairing (Request mm amt priority newDone)), E1, E2.
  reflexivity.
Qed.

(** A request above the whole pool is granted as soon as the pool is idle
    and nobody is ahead of it: it takes all of [available] and leaves the
    excess as underflow. *)
Theorem oversized_request_borrows
  (mm : memoryManager) (amt : Z) (priority : bool) (newDone : chan) :
  accounted mm -> available mm = base mm ->
  priorityFifo mm = [] -> priority = true \/ fifo mm = [] ->
  fits (priorityReserve mm) amt -> base mm < amt ->
  Request mm amt priority newDone =
  (Granted, set_underflow (amt - base mm) (set_available 0 mm)).
Proof.
  intros H Hidle Hp Hq Hf Hbig.
  pose proof H as H'. acc_fields H'.
  assert (Ht : try mm amt priority =
               (true, set_underflow (amt - base mm) (set_available 0 mm))).
  { rewrite try_fits by (try assumption; lia).
    destruct Hf as [Hf0 Hf1].
    replace (if priority then amt <=? available mm
             else amt + priorityReserve mm <=? available mm) with false
      by (destruct priority; symmetry; apply Z.leb_gt; lia).
    rewrite Hidle, Z.eqb_refl.
    replace (base mm <=? amt) with true by (symmetry; apply Z.leb_le; lia).
    reflexivity. }
  destruct (Request_cases mm amt priority newDone) as (Hiff & Hg & _).
  cbv zeta in *.
  assert (Eg : fst (Request mm amt priority newDone) = Granted).
  { apply Hiff. rewrite Ht. auto. }
  destruct (Hg Eg) as (Es & _).
  rewrite (surjective_pairing (Request mm amt priority newDone)), Eg, Es, Ht.
  reflexivity.
Qed.

(** A normal request that is granted at once leaves the priority reserve
    untouched, unless it is the borrow that takes a whole idle pool. *)
Theorem normal_grant_leaves_reserve
  (mm mm' : memoryManager) (amt : Z) (newDone : chan) :
  accounted mm -> fits (priorityReserve mm) amt ->
  Request mm amt memoryPriorityLow newDone = (Granted, mm') ->
  priorityReserve mm <= available mm'
  \/ (available mm = base mm /\ base mm <= amt /\
      available mm' = 0 /\ underflow mm' = amt - base mm).
Proof.
  intros H Hf Hreq. destruct (Request_granted _ _ _ _ _ Hreq) as (_ & _ & Ht).
  acc_fields H. unfold memoryPriorityLow in Ht.
  rewrite try_fits in Ht by (try assumption; lia).
  destruct (Z.leb_spec (amt + priorityReserve mm) (available mm)).
  - inversion Ht; subst mm'. left. cbn. lia.
  - destruct (Z.eqb_spec (available mm) (base mm)); cbn [andb] in Ht; [|discriminate].
    destruct (Z.leb_spec (available mm) amt); [|discriminate].
    inversion Ht; subst mm'. right. cbn. repeat split; try assumption; lia.
Qed.

(** ** The collection counter *)

Lemma Request_memSinceGC (mm : memoryManager) (amt : Z) (priority : bool) (newDone : chan) :
  memSinceGC (snd (Request mm amt priority newDone)) = memSinceGC mm.
Proof.
  destruct (Request_cases mm amt priority newDone) as (_ & Hg & Hb).
  cbv zeta in *.
  destruct (fst (Request mm amt priority newDone)) eqn:E.
  - destruct (Hg eq_refl) as (-> & _). apply try_frame.
  - destruct Hb as (_ & ->); [discriminate|]. destruct priority; reflexivity.
Qed.

Lemma Return_memSinceGC (defaultMemory : Z) (mm : memoryManager) (amt : Z) :
  memSinceGC (fst (Return defaultMemory mm amt)) =
  memSinceGC (fst (countReturned defaultMemory mm amt)).
Proof.
  rewrite Return_blocks.
  pose proof (clearUnderflow_frame (fst (countReturned defaultMemory mm amt)) amt) as Hu.
  destruct (clearUnderflow (fst (countReturned defaultMemory mm amt)) amt) as [m|m a];
    cbn [fst snd].
  - rewrite Hu. reflexivity.
  - destruct (release_frame (fst (addAvailable m a))) as (_ & Hm & _).
    destruct (addAvailable_frame m a) as (Ha & _).
    rewrite Hm, Ha. cbn. rewrite Hu. reflexivity.
Qed.

(** Between calls the counter of returned memory is never above
    [defaultMemory]: a [Return] that lifts it above runs the collector and
    leaves zero, and [Request] does not touch it. *)
Theorem counter_never_above_threshold
  (defaultMemory : Z) (cs : list call) (mm : memoryManager) :
  0 <= defaultMemory -> 0 <= memSinceGC mm <= defaultMemory ->
  0 <= memSinceGC (run defaultMemory cs mm) <= defaultMemory.
Proof.
  intros Hd. revert mm.
  induction cs as [|c cs IH]; intros mm Hm; cbn; [exact Hm|].
  apply IH. destruct c as [amt priority newDone|amt]; cbn.
  - rewrite Request_memSinceGC. exact Hm.
  - rewrite Return_memSinceGC, countReturned_spec. cbv zeta.
    pose proof (add_ok (memSinceGC mm) amt) as [H0 _].
    destruct (Z.ltb_spec defaultMemory (U64.add (memSinceGC mm) amt)); cbn; lia.
Qed.

(** ** Channels are closed once *)

Lemma map_firstn_skipn (q : list memoryRequest) (n : nat) :
  map done q = map done (firstn n q) ++ map done (skipn n q).
Proof. rewrite <- map_app, firstn_skipn. reflexivity. Qed.

(** The waiters a [Return] releases are those that leave the fifos. *)
Lemma Return_chans (defaultMemory : Z) (mm : memoryManager) (amt : Z) :
  Permutation (queuedChans mm)
    (closed (snd (Return defaultMemory mm amt))
       ++ queuedChans (fst (Return defaultMemory mm amt))).
Proof.
  rewrite Return_blocks.
  destruct (countReturned_frame defaultMemory mm amt) as (Hf & Hc & _).
  pose proof (clearUnderflow_frame (fst (countReturned defaultMemory mm amt)) amt) as Hu.
  destruct (clearUnderflow (fst (countReturned defaultMemory mm amt)) amt) as [m|m a];
    cbn [fst snd].
  - rewrite Hc, Hu. unfold queuedChans. cbn. rewrite Hf. cbn. reflexivity.
  - destruct (addAvailable_frame m a) as (Ha & _ & Hca).
    destruct (release_order (fst (addAvailable m a))) as (np & nn & He & Hp & Hn & _).
    assert (Hpq : priorityFifo (fst (addAvailable m a)) = priorityFifo mm).
    { rewrite Ha. cbn. rewrite Hu. cbn. rewrite Hf. reflexivity. }
    assert (Hnq : fifo (fst (addAvailable m a)) = fifo mm).
    { rewrite Ha. cbn. rewrite Hu. cbn. rewrite Hf. reflexivity. }
    rewrite !closed_app, Hc, Hca, He, closed_app, !closed_closeOf.
    unfold queuedChans. rewrite Hp, Hn, Hpq, Hnq. cbn [app].
    rewrite (map_firstn_skipn (priorityFifo mm) np) at 1.
    rewrite (map_firstn_skipn (fifo mm) nn) at 1.
    rewrite <- !app_assoc. apply Permutation_app_head.
    rewrite !app_assoc. apply Permutation_app_tail.
    apply Permutation_app_comm.
Qed.

(** A [Request] adds at most its own channel to the fifos. *)
Lemma Request_chans (mm : memoryManager) (amt : Z) (priority : bool) (newDone : chan) :
  queuedChans (snd (Request mm amt priority newDone)) = queuedChans mm
  \/ Permutation (queuedChans (snd (Request mm amt priority newDone)))
                 (newDone :: queuedChans mm).
Proof.
  destruct (Request_cases mm amt priority newDone) as (_ & Hg & Hb).
  cbv zeta in *.
  destruct (fst (Request mm amt priority newDone)) eqn:E.
  - left. destruct (Hg eq_refl) as (_ & Hq & Hp). unfold queuedChans.
    rewrite Hq, Hp. reflexivity.
  - right. destruct Hb as (_ & ->); [discriminate|].
    unfold queuedChans. destruct priority; cbn; rewrite map_app; cbn.
    + rewrite <- app_assoc. cbn. symmetry. apply Permutation_middle.
    + rewrite app_assoc. symmetry. apply Permutation_cons_append.
Qed.

Lemma trace_closed (defaultMemory : Z) (cs : list call) :
  forall mm, NoDup (queuedChans mm ++ chansOf cs) ->
  NoDup (closed (trace defaultMemory cs mm))
  /\ incl (closed (trace defaultMemory cs mm)) (queuedChans mm ++ chansOf cs).
Proof.
  induction cs as [|c cs IH]; intros mm Hnd.
  - cbn. split; [constructor | intros x []].
  - destruct c as [amt priority newDone|amt]; cbn [trace chansOf flat_map app] in *.
    + set (mm' := snd (Request mm amt priority newDone)).
      fold (chansOf cs) in *.
      assert (Hsub : NoDup (queuedChans mm' ++ chansOf cs)
                     /\ incl (queuedChans mm' ++ chansOf cs)
                             (queuedChans mm ++ newDone :: chansOf cs)).
      { destruct (Request_chans mm amt priority newDone) as [E|P]; fold mm' in E || fold mm' in P.
        - rewrite E. split; [eapply NoDup_remove_1; exact Hnd|].
          intros x Hx. apply in_app_or in Hx. apply in_or_app.
          destruct Hx; [left | right; right]; assumption.
        - assert (P' : Permutation (queuedChans mm' ++ chansOf cs)
                                   (queuedChans mm ++ newDone :: chansOf cs)).
          { etransitivity; [apply Permutation_app_tail; exact P|].
            cbn. apply Permutation_middle. }
          split; [eapply Permutation_NoDup; [symmetry; exact P' | exact Hnd]|].
          intros x Hx. eapply Permutation_in; [exact P' | exact Hx]. }
      destruct Hsub as (Hnd' & Hin).
      destruct (IH mm' Hnd') as (I1 & I2).
      split; [exact I1 | intros x Hx; apply Hin, I2, Hx].
    + fold (chansOf cs) in *.
      set (r := Return defaultMemory mm amt) in *.
      pose proof (Return_chans defaultMemory mm amt) as P. fold r in P.
      assert (P' : Permutation (queuedChans mm ++ chansOf cs)
                               (closed (snd r) ++ queuedChans (fst r) ++ chansOf cs)).
      { rewrite app_assoc. apply Permutation_app_tail. exact P. }
      pose proof (Permutation_NoDup P' Hnd) as Hnd2.
      destruct (IH (fst r) (NoDup_app_remove_l _ _ Hnd2)) as (I1 & I2).
      rewrite closed_app. split.
      * apply NoDup_app; [exact (NoDup_app_remove_r _ _ Hnd2) | exact I1 |].
        intros x Hx Hx'. apply I2 in Hx'.
        clear - Hnd2 Hx Hx'.
        induction (closed (snd r)) as [|y l IHl]; [destruct Hx|].
        cbn in Hnd2. inversion Hnd2 as [|? ? Hny Hl]; subst.
        destruct Hx as [->|Hx]; [apply Hny, in_or_app; right; exact Hx'|].
        apply IHl; assumption.
      * intros x Hx. apply in_app_or in Hx.
        eapply Permutation_in; [symmetry; exact P'|].
        apply in_or_app. destruct Hx as [Hx|Hx]; [left; exact Hx | right; apply I2, Hx].
Qed.

(** When the channels made by the requests are distinct, no channel is
    closed twice over a whole sequence of calls, and only channels of those
    requests are closed. *)
Theorem no_channel_closed_twice
  (defaultMemory baseMemory priorityMemory : Z) (stopChan : chan) (cs : list call) :
  NoDup (chansOf cs) ->
  let evs := trace defaultMemory cs (newMemoryManager baseMemory priorityMemory stopChan) in
  NoDup (closed evs) /\ incl (closed evs) (chansOf cs).
Proof.
  intros Hnd. cbv zeta.
  exact (trace_closed defaultMemory cs
           (newMemoryManager baseMemory priorityMemory stopChan) Hnd).
Qed.

(** ** Instances *)

(** Closes a bound, a fit or a list of fitting calls on literals. *)
Ltac literal :=
  repeat match goal with
         | |- U64.ok _ => split
         | |- fits _ _ => split
         | |- callFits _ _ => cbn
         | |- Forall _ _ => constructor
         | |- _ /\ _ => split
         | |- _ <= _ => discriminate
         | |- _ < _ => reflexivity
         | |- _ = _ => reflexivity
         end.

Lemma try_decides_by_three_cases_witness :
  try (newMemoryManager 10 3 0%nat) 7 false =
  (true, set_available (10 - 7) (newMemoryManager 10 3 0%nat)).
Proof.
  destruct (try_decides_by_three_cases (newMemoryManager 10 3 0%nat) 7 false)
    as (H & _); [literal ..|].
  apply H. right. literal.
Defined.

Lemma fitting_calls_keep_bounds_witness :
  let mm := run (2 ^ 28) [CallRequest 25 false 1%nat; CallReturn 10]
              (newMemoryManager 10 3 0%nat) in
  available mm <= base mm /\ (0 < underflow mm -> available mm = 0).
Proof.
  apply (fitting_calls_keep_bounds (2 ^ 28) 10 3 0%nat
           [CallRequest 25 false 1%nat; CallReturn 10]); literal.
Defined.

Lemma round_trip_reachable_witness :
  let mm := run (2 ^ 28) [CallRequest 3 false 1%nat] (newMemoryManager 10 0 0%nat) in
  let mm1 := snd (Request mm 4 true 2%nat) in
  sameButGC (fst (Return (2 ^ 28) mm1 4)) mm
  /\ closed (snd (Return (2 ^ 28) mm1 4)) = [].
Proof.
  apply (round_trip_reachable (2 ^ 28) 10 0 0%nat [CallRequest 3 false 1%nat]
           4 true 2%nat); literal.
Defined.

Lemma accounted_sample :
  accounted (mkManager 4 10 0 2 0 [mkRequest 5 7%nat] [mkRequest 6 8%nat] 0%nat).
Proof.
  constructor; cbn; literal; try discriminate.
Defined.

Lemma Request_takes_its_amount_witness :
  let mm := mkManager 4 10 0 2 0 [mkRequest 5 7%nat] [mkRequest 6 8%nat] 0%nat in
  let r := Request mm 1 true 9%nat in
  (fst r = Granted ->
   uncommitted (snd r) = uncommitted mm - 1 /\ demand (snd r) = demand mm)
  /\ (fst r <> Granted ->
      available (snd r) = available mm /\ underflow (snd r) = underflow mm
      /\ demand (snd r) = demand mm + 1).
Proof.
  apply (Request_takes_its_amount
           (mkManager 4 10 0 2 0 [mkRequest 5 7%nat] [mkRequest 6 8%nat] 0%nat)
           1 true 9%nat);
    [exact accounted_sample | literal ..].
Defined.

Lemma Return_hands_back_its_amount_witness :
  let mm := mkManager 4 10 0 2 0 [mkRequest 5 7%nat] [mkRequest 6 8%nat] 0%nat in
  let r := Return (2 ^ 28) mm 6 in
  uncommitted (fst r) = uncommitted mm + 6 - (demand mm - demand (fst r))
  /\ filter isCritical (snd r) = [].
Proof.
  apply (Return_hands_back_its_amount (2 ^ 28)
           (mkManager 4 10 0 2 0 [mkRequest 5 7%nat] [mkRequest 6 8%nat] 0%nat) 6);
    [exact accounted_sample | literal ..].
Defined.

Lemma run_never_overcommits_witness :
  let cs := [CallRequest 7 false 1%nat; CallRequest 2 false 2%nat;
             CallRequest 1 true 3%nat; CallReturn 7; CallReturn 30] in
  let mm := run (2 ^ 28) cs (newMemoryManager 10 3 0%nat) in
  uncommitted mm + (requested cs - demand mm - returned cs) <= 10.
Proof.
  apply (run_never_overcommits (2 ^ 28) 10 3 0%nat
           [CallRequest 7 false 1%nat; CallRequest 2 false 2%nat;
            CallRequest 1 true 3%nat; CallReturn 7; CallReturn 30]); literal.
Defined.

Lemma Return_releases_all_it_can_witness :
  stalled (fst (Return (2 ^ 28)
                  (mkManager 0 10 0 0 0 [mkRequest 3 3%nat]
                             [mkRequest 3 1%nat; mkRequest 9 2%nat] 0%nat) 6)).
Proof.
  apply (Return_releases_all_it_can (2 ^ 28)
           (mkManager 0 10 0 0 0 [mkRequest 3 3%nat]
                      [mkRequest 3 1%nat; mkRequest 9 2%nat] 0%nat) 6).
  reflexivity.
Defined.

Lemma nobody_waits_needlessly_witness :
  stalled (run (2 ^ 28)
             [CallRequest 7 false 1%nat; CallRequest 2 false 2%nat;
              CallRequest 5 true 3%nat; CallReturn 4]
             (newMemoryManager 10 3 0%nat)).
Proof.
  apply (nobody_waits_needlessly (2 ^ 28) 10 3 0%nat); literal.
Defined.

Lemma accounted_borrowed :
  accounted (mkManager 0 10 0 0 15 [] [] 0%nat).
Proof.
  constructor; cbn; literal; try discriminate.
  intros _. reflexivity.
Defined.

Lemma borrow_blocks_requests_witness :
  let mm := mkManager 0 10 0 0 15 [] [] 0%nat in
  Request mm 1 true 5%nat =
  (Blocked (mkRequest 1 5%nat), set_priorityFifo [mkRequest 1 5%nat] mm).
Proof.
  apply (borrow_blocks_requests (mkManager 0 10 0 0 15 [] [] 0%nat) 1 true 5%nat);
    [exact accounted_borrowed | literal ..].
Defined.

Lemma oversized_request_borrows_witness :
  let mm := newMemoryManager 10 3 0%nat in
  Request mm 25 false 1%nat = (Granted, set_underflow (25 - 10) (set_available 0 mm)).
Proof.
  apply (oversized_request_borrows (newMemoryManager 10 3 0%nat) 25 false 1%nat);
    [apply accounted_new; literal | literal | literal | right; literal | literal ..].
Defined.

Lemma normal_grant_leaves_reserve_witness :
  let mm := newMemoryManager 10 3 0%nat in
  let mm' := snd (Request mm 7 memoryPriorityLow 1%nat) in
  priorityReserve mm <= available mm'
  \/ (available mm = base mm /\ base mm <= 7 /\
      available mm' = 0 /\ underflow mm' = 7 - base mm).
Proof.
  apply (normal_grant_leaves_reserve (newMemoryManager 10 3 0%nat)
           (snd (Request (newMemoryManager 10 3 0%nat) 7 memoryPriorityLow 1%nat))
           7 1%nat);
    [apply accounted_new; literal | literal ..].
Defined.

Lemma counter_never_above_threshold_witness :
  0 <= memSinceGC (run 10 [CallRequest 8 false 1%nat; CallReturn 8; CallReturn 3]
                       (newMemoryManager 10 3 0%nat)) <= 10.
Proof.
  apply (counter_never_above_threshold 10
           [CallRequest 8 false 1%nat; CallReturn 8; CallReturn 3]
           (newMemoryManager 10 3 0%nat)); literal.
Defined.

Lemma no_channel_closed_twice_witness :
  let evs := trace (2 ^ 28)
               [CallRequest 10 false 1%nat; CallRequest 4 false 2%nat;
                CallRequest 4 true 3%nat; CallReturn 10]
               (newMemoryManager 10 0 0%nat) in
  NoDup (closed evs) /\ incl (closed evs) [1%nat; 2%nat; 3%nat].
Proof.
  apply (no_channel_closed_twice (2 ^ 28) 10 0 0%nat
           [CallRequest 10 false 1%nat; CallRequest 4 false 2%nat;
            CallRequest 4 true 3%nat; CallReturn 10]).
  cbn. repeat constructor; cbn; intuition discriminate.
Defined.

Lemma Request_whole_pool_witness :
  let mm := newMemoryManager 10 3 0%nat in
  enoughMemory mm 10 false = false
  /\ noneInUse mm 10 = true
  /\ Request mm 10 false 1%nat = (Granted, set_underflow 0 (set_available 0 mm)).
Proof.
  apply (Request_whole_pool (newMemoryManager 10 3 0%nat) 1%nat); literal.
Defined.

Lemma reserve_above_base_witness :
  let mm := newMemoryManager 10 11 0%nat in
  enoughMemory mm 4 false = false
  /\ (fst (try mm 4 false) = true ->
      available mm = base mm /\ base mm <= 4 /\
      snd (try mm 4 false) = set_underflow (4 - base mm) (set_available 0 mm)).
Proof.
  apply (reserve_above_base (newMemoryManager 10 11 0%nat) 4);
    [apply accounted_new; literal | literal ..].
Defined.

(** ** Returns whose sum wraps *)

(** C7 (the code departs from the claim).  On [newMemoryManager(10, 1, stop)]
    a normal 5 is granted and a second normal 5 waits (it needs 6).
    [Return(2^64 - 1)] then returns far more than was granted: the exact
    sum [5 + (2^64 - 1)] is above [base = 10], but the addition at line 158
    wraps to 4, the test at line 162 fails, [available] is left at 4 and not
    clamped to 10, nothing is reported, and the waiter stays queued. *)
Theorem Return_misses_wrapped_over_return :
  let mm0 := newMemoryManager 10 1 0%nat in
  let mm1 := snd (Request mm0 5 false 1%nat) in
  let mm2 := snd (Request mm1 5 false 2%nat) in
  let r := Return (2 ^ 28) mm2 U64.max in
  (available mm2 = 5 /\ base mm2 = 10 /\ underflow mm2 = 0
   /\ map amount (fifo mm2) = [5])
  /\ (base mm2 <? available mm2 + U64.max) = true
  /\ U64.add (available mm2) U64.max = 4
  /\ available (fst r) = 4
  /\ filter isCritical (snd r) = []
  /\ closed (snd r) = []
  /\ map amount (fifo (fst r)) = [5].
Proof. vm_compute. repeat split. Qed.

(** C8 (the code departs from the claim).  On [newMemoryManager(10, 0, stop)]
    every return below matches a grant: 6 bytes are granted and returned,
    which leaves the counter at 6, then [2^64 - 5] bytes are granted by the
    borrow and returned.  The exact count [6 + (2^64 - 5)] is above any
    threshold a [uint64] can hold, but the addition at line 140 wraps to 1:
    the counter is left at 1 and the collector does not run. *)
Theorem Return_counter_wraps :
  let mm0 := newMemoryManager 10 0 0%nat in
  let mm1 := snd (Request mm0 6 false 1%nat) in
  let mm2 := fst (Return (2 ^ 28) mm1 6) in
  let r3 := Request mm2 (U64.modulus - 5) false 2%nat in
  let r := Return (2 ^ 28) (snd r3) (U64.modulus - 5) in
  (memSinceGC mm2 = 6 /\ available mm2 = 10 /\ fst r3 = Granted)
  /\ (U64.max <? memSinceGC mm2 + (U64.modulus - 5)) = true
  /\ U64.add (memSinceGC mm2) (U64.modulus - 5) = 1
  /\ memSinceGC (fst r) = 1
  /\ filter isCollect (snd r) = []
  /\ available (fst r) = 10 /\ underflow (fst r) = 0.
Proof. vm_compute. repeat split. Qed.
